(** * MAPPO on MPE: the numerical core of [cleanmarl/mappo_mpe.py]

  A shallow embedding of the training script's arithmetic: the GAE
  backward pass, the return normalizer (an exponentially weighted
  average with debiasing), the value-loss clipping, the epoch loop
  with its KL early stop, the explained-variance diagnostic and the
  episode accumulators.

  Tensors of floats are modelled over the real numbers (exact
  arithmetic): a tensor of shape [(num_envs,)] is a [list R], a
  tensor of shape [(num_steps, num_envs)] is a list of such rows.
  Rounding, infinities and not-a-number values of the float32
  implementation are outside the model, except where the script
  itself produces [np.nan] on purpose (see [explained_var]).

  The properties proved here are therefore those that rounding moves
  by a rounding error only: bounds, round trips, index arithmetic,
  and recursions and closed forms over one rollout or a few updates.
  Two kinds of statement are left
  unstated because float32 decides them: whether a computed variance
  is exactly zero, and where the normalizer's accumulators settle
  after very many updates with a decay weight close to 1. *)

From Stdlib Require Import Reals Lra Lia List.
From stdpp Require Import base option list.

#[local] Open Scope R_scope.

(** ** Tensors *)

Module Tensor.

(** shape [(num_envs,)] *)
Abbreviation Row := (list R).
(** shape [(num_steps, num_envs)] *)
Abbreviation Table := (list (list R)).

#[export] Instance R_inhabited : Inhabited R := populate 0.

(** comparisons of floats, as booleans through [bool_decide] *)
#[export] Instance Rle_decision : RelDecision Rle := Rle_dec.
#[export] Instance Rgt_decision : RelDecision Rgt := Rgt_dec.

(** [torch.zeros(n)] and [torch.zeros((t, n))] *)
Definition zeros (n : nat) : Row := replicate n 0.
Definition zeros2 (t n : nat) : Table := replicate t (zeros n).

(** Elementwise arithmetic on rows of the same shape; the script only
    ever combines rows of shape [(num_envs,)] (or [(1, num_envs)],
    which broadcasts to the same thing). *)
Definition add (a b : Row) : Row := zip_with Rplus a b.
Definition sub (a b : Row) : Row := zip_with Rminus a b.
Definition mul (a b : Row) : Row := zip_with Rmult a b.
(** a Python scalar times a row, and a Python scalar minus a row *)
Definition scale (k : R) (a : Row) : Row := fmap (Rmult k) a.
Definition rsub (k : R) (a : Row) : Row := fmap (Rminus k) a.

(** [a + b] on tables of the same shape *)
Definition add2 (a b : Table) : Table := zip_with add a b.

(** [tbl[t]]: [None] stands for Python's [IndexError] *)
Definition get (tbl : Table) (t : nat) : option Row := tbl !! t.

(** [tbl[t] = r]: in place, and an [IndexError] out of range *)
Definition set (tbl : Table) (t : nat) (r : Row) : option Table :=
  if (t <? length tbl)%nat then Some (<[t := r]> tbl) else None.

(** [tbl[t, s]] as a total function, for stating properties *)
Definition at2 (tbl : Table) (t s : nat) : R := (tbl !!! t) !!! s.

(** [x.reshape(-1)] on a table *)
Definition flatten (tbl : Table) : Row := concat tbl.

(** the table has shape [(t, n)] *)
Definition shaped (t n : nat) (tbl : Table) : Prop :=
  length tbl = t /\ Forall (fun r => length r = n) tbl.

(** [x.sum()] and [x.mean()]: the mean divides by the number of
    elements; every mean the script takes is over a non-empty tensor
    (a minibatch slice, the batch, the slots). *)
Definition sum (a : Row) : R := fold_right Rplus 0 a.
Definition mean (a : Row) : R := sum a / INR (length a).

End Tensor.
Import Tensor.

(** ** Generalized advantage estimation (lines 266-277) *)

Module GAE.

Section Loop.

(** [args.gamma], [args.gae_lambda], [args.num_steps] *)
Variables (gamma gae_lambda : R) (num_steps : nat).
(** the rollout buffer and the bootstrap (line 259, line 262) *)
Variables (rewards dones values : Table) (next_done next_value : Row).

(** One pass of the body of [for t in reversed(range(num_steps))]:
    the state is the table [advantages] and the carry [lastgaelam]. *)
Definition body (t : nat) (st : Table * Row) : option (Table * Row) :=
  let '(advantages, lastgaelam) := st in
  nn ← (if (t =? num_steps - 1)%nat
        then Some (rsub 1 next_done, next_value)
        else d ← get dones (t + 1);
             v ← get values (t + 1);
             Some (rsub 1 d, v));
  let '(nextnonterminal, nextvalues) := nn in
  r ← get rewards t;
  v ← get values t;
  let delta := sub (add r (mul (scale gamma nextvalues) nextnonterminal)) v in
  let lastgaelam :=
    add delta (mul (scale (gamma * gae_lambda) nextnonterminal) lastgaelam) in
  advantages ← set advantages t lastgaelam;
  Some (advantages, lastgaelam).

(** [loop n] runs the passes for [t = n-1, n-2, ..., 0]. *)
Fixpoint loop (n : nat) (st : Table * Row) : option (Table * Row) :=
  match n with
  | O => Some st
  | S t => st' ← body t st; loop t st'
  end.

End Loop.

(** Lines 266-277: [advantages = zeros_like(rewards)], [lastgaelam = 0]
    (a scalar, which broadcasts as a row of zeros), the backward loop,
    then [returns = advantages + values]. *)
Definition gae (gamma gae_lambda : R) (num_steps num_envs : nat)
    (rewards dones values : Table) (next_done next_value : Row)
    : option (Table * Table) :=
  st ← loop gamma gae_lambda num_steps rewards dones values next_done next_value
          num_steps (zeros2 (length rewards) num_envs, zeros num_envs);
  Some (st.1, add2 st.1 values).

End GAE.

(** ** Return normalizer (lines 216-222, 264-265, 319-329) *)

Module Normalizer.

(** The five module-level variables of the script.  [mean] and [var]
    are recomputed by every update and read by [normalize] and
    [denormalize]. *)
Record State : Type := mkState {
  running_mean : R;
  running_mean_sq : R;
  debiasing_term : R;
  mean : R;
  var : R
}.

(** [x.clamp(min=lo)] *)
Definition clamp_min (x lo : R) : R := Rmax x lo.

(** the two floors: [1e-5] and [1e-2] *)
Definition eps_debias : R := 1 / 100000.
Definition eps_var : R := 1 / 100.

(** A division that reports a zero divisor: [None] stands for the
    event "divided by zero". *)
Definition div (x y : R) : option R :=
  if Req_dec_T y 0 then None else Some (x / y).

(** Lines 220-222 and 325-327: [mean], [mean_sq] and [var] from the
    three accumulators. *)
Definition derive (rm rms db : R) : option (R * R) :=
  mean ← div rm (clamp_min db eps_debias);
  mean_sq ← div rms (clamp_min db eps_debias);
  Some (mean, clamp_min (mean_sq - mean ^ 2) eps_var).

(** Lines 217-222: all three accumulators start at zero. *)
Definition init : option State :=
  mv ← derive 0 0 0;
  Some (mkState 0 0 0 mv.1 mv.2).

(** [x.mean()] inside the normalizer: the sum over the number of
    elements, with the division reported when that number is zero *)
Definition mean_of (a : Row) : option R :=
  div (Tensor.sum a) (INR (length a)).

(** Lines 322-327: one update with the raw returns of a minibatch. *)
Definition update (ewa_weigth : R) (st : State) (mb_returns : Row)
    : option State :=
  batch_mean ← mean_of mb_returns;
  batch_mean_sq ← mean_of (fmap (fun x => x ^ 2) mb_returns);
  let running_mean :=
    ewa_weigth * running_mean st + (1 - ewa_weigth) * batch_mean in
  let running_mean_sq :=
    ewa_weigth * running_mean_sq st + (1 - ewa_weigth) * batch_mean_sq in
  let debiasing_term :=
    ewa_weigth * debiasing_term st + (1 - ewa_weigth) * 1 in
  mv ← derive running_mean running_mean_sq debiasing_term;
  Some (mkState running_mean running_mean_sq debiasing_term mv.1 mv.2).

(** Line 329, per element: [(b_returns[mb_inds] - mean) / torch.sqrt(var)] *)
Definition normalize (st : State) (x : R) : option R :=
  div (x - mean st) (sqrt (var st)).

(** Lines 264-265, per element: [values * torch.sqrt(var) + mean] *)
Definition denormalize (st : State) (y : R) : R :=
  y * sqrt (var st) + mean st.

(** lines 264-265 on a whole tensor *)
Definition denormalize_row (st : State) (r : Row) : Row :=
  fmap (denormalize st) r.
Definition denormalize_table (st : State) (tbl : Table) : Table :=
  fmap (denormalize_row st) tbl.

(** A run of updates, one per minibatch, in order. *)
Fixpoint updates (ewa_weigth : R) (mbs : list Row) (st : State)
    : option State :=
  match mbs with
  | [] => Some st
  | mb :: rest => st' ← update ewa_weigth st mb; updates ewa_weigth rest st'
  end.

(** the script from its start through the given minibatch updates *)
Definition run (ewa_weigth : R) (mbs : list Row) : option State :=
  st ← init; updates ewa_weigth mbs st.

(** [mean] and [var] are the ones derived from the accumulators *)
Definition coherent (st : State) : Prop :=
  derive (running_mean st) (running_mean_sq st) (debiasing_term st)
  = Some (mean st, var st).

(** The states the script can be in: the initial one, and any state
    after an update with a (non-empty) minibatch of returns. *)
Inductive reachable (ewa_weigth : R) : State -> Prop :=
| reach_init st :
    init = Some st -> reachable ewa_weigth st
| reach_update st mb st' :
    reachable ewa_weigth st -> mb <> [] ->
    update ewa_weigth st mb = Some st' -> reachable ewa_weigth st'.

End Normalizer.

(** ** Rollout values and the advantage phase (lines 231-241, 261-277) *)

Module Rollout.

(** A Python [for x in xs] whose body can raise. *)
Fixpoint for_each {S A : Type} (xs : list A) (body : A -> S -> option S)
    (st : S) : option S :=
  match xs with
  | [] => Some st
  | x :: rest => st' ← body x st; for_each rest body st'
  end.

(** Line 241 inside [for step in range(0, num_steps)]:
    [values[step] = value.flatten()], where [critic step] is the
    critic's output at that step. *)
Definition record_values (num_steps : nat) (critic : nat -> Row)
    (values : Table) : option Table :=
  for_each (seq 0 num_steps) (fun step vs => Tensor.set vs step (critic step)) values.

(** Lines 261-277.  Returns the rebound [values] together with
    [advantages] and [returns]. *)
Definition advantage_phase (use_value_normalization : bool)
    (norm : Normalizer.State) (gamma gae_lambda : R) (num_steps num_envs : nat)
    (rewards dones values : Table) (next_done next_value : Row)
    : option (Table * Table * Table) :=
  let '(values, next_value) :=
    if use_value_normalization
    then (Normalizer.denormalize_table norm values,
          Normalizer.denormalize_row norm next_value)
    else (values, next_value) in
  ar ← GAE.gae gamma gae_lambda num_steps num_envs
         rewards dones values next_done next_value;
  Some (values, ar.1, ar.2).

(** The value side of one iteration: the rollout overwrites every row
    of [values] with this iteration's critic outputs, then the
    advantage phase runs. *)
Definition iteration_values (use_value_normalization : bool)
    (norm : Normalizer.State) (gamma gae_lambda : R) (num_steps num_envs : nat)
    (critic : nat -> Row) (critic_next : Row)
    (rewards dones values : Table) (next_done : Row)
    : option (Table * Table * Table) :=
  values ← record_values num_steps critic values;
  advantage_phase use_value_normalization norm gamma gae_lambda
    num_steps num_envs rewards dones values next_done critic_next.

End Rollout.

(** ** Value loss with clipping (lines 189-192, 333-348) *)

Module ValueLoss.

(** [b.float()] *)
Definition float (b : bool) : R := if b then 1 else 0.

(** [torch.clamp(x, lo, hi)], which is [min(max(x, lo), hi)] *)
Definition clamp (x lo hi : R) : R := Rmin (Rmax x lo) hi.

(** Lines 189-192, on one element. *)
Definition huber_loss (e d : R) : R :=
  let a := float (bool_decide (Rabs e <= d)) in
  let b := float (bool_decide (Rabs e > d)) in
  a * e ^ 2 / 2 + b * d * (Rabs e - d / 2).

Section Loss.

(** [args.use_huber_loss], [args.huber_delta], [args.clip_coef] *)
Variables (use_huber_loss : bool) (huber_delta clip_coef : R).

(** the conditional expression of lines 334 and 342 *)
Definition loss_of_error (err : Row) : Row :=
  if use_huber_loss
  then fmap (fun e => huber_loss e huber_delta) err
  else fmap (fun e => 0.5 * e ^ 2) err.

(** the same on one element *)
Definition elem_loss (e : R) : R :=
  if use_huber_loss then huber_loss e huber_delta else 0.5 * e ^ 2.

Definition v_loss_unclipped_error (newvalue target_values : Row) : Row :=
  sub newvalue target_values.

Definition v_loss_unclipped (newvalue target_values : Row) : Row :=
  loss_of_error (v_loss_unclipped_error newvalue target_values).

Definition v_clipped (newvalue target_values : Row) : Row :=
  add target_values
      (fmap (fun x => clamp x (- clip_coef) clip_coef) (sub newvalue target_values)).

Definition v_loss_clipped_error (newvalue target_values : Row) : Row :=
  sub (v_clipped newvalue target_values) target_values.

Definition v_loss_clipped (newvalue target_values : Row) : Row :=
  loss_of_error (v_loss_clipped_error newvalue target_values).

(** the entry appended to [valueclipfracs] on line 344 *)
Definition valueclipfrac (newvalue target_values : Row) : R :=
  Tensor.mean
    (zip_with (fun c u => float (bool_decide (c > u)))
       (v_loss_clipped newvalue target_values)
       (v_loss_unclipped newvalue target_values)).

Definition v_loss_max (newvalue target_values : Row) : Row :=
  zip_with Rmax (v_loss_unclipped newvalue target_values)
                (v_loss_clipped newvalue target_values).

(** lines 335-348 *)
Definition v_loss (clip_vloss : bool) (newvalue target_values : Row) : R :=
  if clip_vloss
  then Tensor.mean (v_loss_max newvalue target_values)
  else Tensor.mean (v_loss_unclipped newvalue target_values).

End Loss.

End ValueLoss.

(** ** The epoch loop and its early stop (lines 289-359) *)

Module Optimizer.

(** Lines 300 and 305: [ratio = logratio.exp()],
    [approx_kl = ((ratio - 1) - logratio).mean()]. *)
Definition approx_kl_of (logratio : Row) : R :=
  let ratio := fmap exp logratio in
  Tensor.mean (sub (fmap (fun r => r - 1) ratio) logratio).

(** [range(0, stop, step)]: a [ValueError] when [step] is zero *)
Definition py_range (stop step : nat) : option (list nat) :=
  if (step =? 0)%nat then None
  else Some (fmap (fun i => (i * step)%nat) (seq 0 ((stop + step - 1) / step))).

(** [l[start:stop]] *)
Definition slice {A : Type} (l : list A) (start stop : nat) : list A :=
  take (stop - start) (drop start l).

Section Epochs.

(** Everything a minibatch pass reads and writes besides the loop's own
    variables: the networks, Adam's state, the normalizer, numpy's
    random generator. *)
Variable World : Type.
(** [np.random.shuffle(b_inds)] *)
Variable shuffle : World -> list nat -> World * list nat.
(** [newlogprob - b_logprobs[mb_inds]] of the re-evaluated policy *)
Variable logratio : World -> list nat -> Row.
(** the rest of a minibatch pass: losses, backward, [optimizer.step()] *)
Variable learn : World -> list nat -> World.
(** [args.batch_size], [args.minibatch_size], [args.target_kl] *)
Variables (batch_size minibatch_size : nat) (target_kl : option R).

(** [approx_kl] is [None] while the name is not bound yet; [visited]
    is a ghost log of the [(epoch, start)] pairs whose minibatch pass
    ran, in order. *)
Record LoopState : Type := mkLoopState {
  world : World;
  b_inds : list nat;
  approx_kl : option R;
  visited : list (nat * nat)
}.

(** lines 295-356 *)
Definition minibatch (epoch start : nat) (st : LoopState) : option LoopState :=
  let end_ := (start + minibatch_size)%nat in
  let mb_inds := slice (b_inds st) start end_ in
  let kl := approx_kl_of (logratio (world st) mb_inds) in
  Some (mkLoopState (learn (world st) mb_inds) (b_inds st) (Some kl)
                (visited st ++ [(epoch, start)])).

(** lines 293-356: one pass of the body of the epoch loop, short of
    the check *)
Definition run_epoch (epoch : nat) (st : LoopState) : option LoopState :=
  let '(w, inds) := shuffle (world st) (b_inds st) in
  starts ← py_range batch_size minibatch_size;
  Rollout.for_each starts (minibatch epoch)
    (mkLoopState w inds (approx_kl st) (visited st)).

(** line 358: [args.target_kl is not None and approx_kl > args.target_kl];
    reading an unbound [approx_kl] is a [NameError] *)
Definition should_break (st : LoopState) : option bool :=
  match target_kl with
  | None => Some false
  | Some k => kl ← approx_kl st; Some (bool_decide (kl > k))
  end.

(** lines 292-359 *)
Fixpoint epoch_loop (epochs : list nat) (st : LoopState) : option LoopState :=
  match epochs with
  | [] => Some st
  | epoch :: rest =>
      st' ← run_epoch epoch st;
      brk ← should_break st';
      if brk : bool then Some st' else epoch_loop rest st'
  end.

(** [for epoch in range(args.update_epochs)] *)
Definition optimize (update_epochs : nat) (st : LoopState) : option LoopState :=
  epoch_loop (seq 0 update_epochs) st.

(** The first [j] epochs run one after the other with no check in
    between: the reference the early stop is measured against. *)
Definition complete_epochs (j : nat) (st : LoopState) : option LoopState :=
  Rollout.for_each (seq 0 j) run_epoch st.

(** the minibatch passes of one epoch, as logged in [visited] *)
Definition epoch_passes (epoch : nat) : list (nat * nat) :=
  match py_range batch_size minibatch_size with
  | Some starts => fmap (pair epoch) starts
  | None => []
  end.

End Epochs.

End Optimizer.

(** ** Explained variance (lines 361-363) *)

Module Diagnostics.

(** [np.var]: the mean of the squared deviations from the mean *)
Definition np_var (y : Row) : R :=
  Tensor.mean (fmap (fun x => (x - Tensor.mean y) ^ 2) y).

(** Line 363; [None] is [np.nan].  The test is on the exact variance;
    the script tests the float32 result of [np.var], which rounding can
    leave off zero on constant returns. *)
Definition explained_var (y_pred y_true : Row) : option R :=
  let var_y := np_var y_true in
  if Req_dec_T var_y 0 then None
  else Some (1 - np_var (sub y_true y_pred) / var_y).

(** Lines 285-286 and 361: the diagnostic of an iteration, on the
    flattened [values] and [returns]. *)
Definition iteration_explained_var (values returns : Table) : option R :=
  explained_var (flatten values) (flatten returns).

End Diagnostics.

(** ** Episode accumulators (lines 213-214, 233, 248-256) *)

Module Episode.

Record Acc : Type := mkAcc {
  episode_rewards : Row;
  episode_lengths : Row
}.

(** what line 252-254 hand to the writer *)
Record Summary : Type := mkSummary {
  average_per_player_episodic_return : R;
  share_episodic_return : R;
  episodic_length : R
}.

(** lines 213-214 *)
Definition init_acc (num_envs : nat) : Acc := mkAcc (zeros num_envs) (zeros num_envs).

(** line 233: [episode_lengths += 1], before the environment steps *)
Definition begin_step (a : Acc) : Acc :=
  mkAcc (episode_rewards a) (fmap (fun x => x + 1) (episode_lengths a)).

(** a boolean array used as a factor: [True] is [1], [False] is [0] *)
Definition as_float (next_done : list bool) : Row :=
  fmap (fun b : bool => if b then 1 else 0) next_done.

(** [arr[next_done] = 0] *)
Definition zero_where (next_done : list bool) (arr : Row) : Row :=
  zip_with (fun (d : bool) x => if d then 0 else x) next_done arr.

(** [np.any(next_done)] *)
Definition np_any (next_done : list bool) : bool :=
  existsb (fun b : bool => b) next_done.

(** Lines 250-256, after the environment returned [reward] and
    [next_done]; [vec_num_envs] is [envs.num_envs]. *)
Definition end_step (vec_num_envs : R) (a : Acc) (reward : Row)
    (next_done : list bool) : Acc * option Summary :=
  let episode_rewards := add (episode_rewards a) reward in
  let episode_lengths := episode_lengths a in
  if np_any next_done then
    let flags := as_float next_done in
    (mkAcc (zero_where next_done episode_rewards)
           (zero_where next_done episode_lengths),
     Some (mkSummary
             (Tensor.mean (mul episode_rewards flags))
             (Tensor.mean (mul (scale vec_num_envs episode_rewards) flags))
             (Tensor.mean (mul episode_lengths flags))))
  else (mkAcc episode_rewards episode_lengths, None).

(** lines 233-256 for one environment step *)
Definition step (vec_num_envs : R) (a : Acc) (reward : Row)
    (next_done : list bool) : Acc * option Summary :=
  end_step vec_num_envs (begin_step a) reward next_done.

End Episode.

(** ** Run-time arguments, step counter and learning rate
       (lines 169-172, 204, 224-232) *)

Module Config.

#[local] Open Scope Z_scope.

(** [a // b] on Python integers; [None] is [ZeroDivisionError] *)
Definition floordiv (a b : Z) : option Z :=
  if b =? 0 then None else Some (a / b).

(** the fields filled in at run time *)
Record Runtime : Type := mkRuntime {
  num_envs : Z;
  batch_size : Z;
  minibatch_size : Z;
  num_iterations : Z
}.

(** Lines 169-172; [num_agents] is [envs.num_agents]. *)
Definition runtime (args_num_envs num_agents num_steps num_minibatches
                    total_timesteps : Z) : option Runtime :=
  let num_envs := args_num_envs * num_agents in
  let batch_size := num_envs * num_steps in
  minibatch_size ← floordiv batch_size num_minibatches;
  num_iterations ← floordiv total_timesteps batch_size;
  Some (mkRuntime num_envs batch_size minibatch_size num_iterations).

(** [range(lo, hi)] on Python integers: empty when [hi <= lo] *)
Definition int_range (lo hi : Z) : list Z :=
  (fun i : nat => lo + Z.of_nat i) <$> seq 0 (Z.to_nat (hi - lo)).

(** lines 231-232: [global_step += args.num_envs] once per step *)
Definition rollout_global_step (num_steps num_envs global_step : Z) : Z :=
  fold_left (fun g _ => g + num_envs) (int_range 0 num_steps) global_step.

(** lines 204 and 224-232: the counter when the rollouts of the
    iterations [1 .. iteration] have run.  The script gets that far
    only if nothing raised in an earlier iteration; what happens
    between the rollouts does not touch the counter. *)
Definition global_step_after (rt : Runtime) (num_steps iteration : Z) : Z :=
  fold_left (fun g _ => rollout_global_step num_steps (num_envs rt) g)
            (int_range 1 (iteration + 1)) 0.

#[local] Close Scope Z_scope.

(** Lines 226-229: the learning rate written into the optimizer at the
    start of an iteration; without annealing the optimizer keeps the
    rate it was built with. *)
Definition lrnow (anneal_lr : bool) (learning_rate : R)
    (iteration num_iterations : Z) : R :=
  if anneal_lr then
    let frac := 1 - (IZR iteration - 1) / IZR num_iterations in
    frac * learning_rate
  else learning_rate.

End Config.

(** ** The global state of a slot (lines 207 and 247) *)

Module GlobalState.

(** [flat] cut into [rows] consecutive pieces of [cols] elements *)
Fixpoint chunks (cols rows : nat) (flat : Row) : Table :=
  match rows with
  | O => []
  | S k => take cols flat :: chunks cols k (drop cols flat)
  end.

(** [x.reshape(rows, -1)] on a two-dimensional array: the elements in
    row-major order, cut into [rows] rows; a [ValueError] ([None]) when
    [rows] is zero or the size is not a multiple of [rows] *)
Definition reshape (rows : nat) (x : Table) : option Table :=
  let flat := concat x in
  if (rows =? 0)%nat then None
  else if (length flat mod rows =? 0)%nat
       then Some (chunks (length flat / rows) rows flat)
       else None.

(** [x.repeat(n, axis=0)]: every row [n] times in a row *)
Definition repeat_rows (n : nat) (x : Table) : Table :=
  x ≫= replicate n.

(** [next_obs.reshape(args.num_envs // envs.num_agents, -1)
       .repeat(envs.num_agents, axis=0)] *)
Definition global_state (num_envs num_agents : nat) (next_obs : Table)
    : option Table :=
  if (num_agents =? 0)%nat then None
  else x ← reshape (num_envs / num_agents) next_obs;
       Some (repeat_rows num_agents x).

End GlobalState.

(** ** Policy side of a minibatch pass (lines 299-315, 350-351) *)

Module Policy.

(** line 300: [ratio = logratio.exp()] *)
Definition ratio_of (logratio : Row) : Row := fmap exp logratio.

(** line 304: [(-logratio).mean()] *)
Definition old_approx_kl (logratio : Row) : R :=
  Tensor.mean (fmap Ropp logratio).

(** line 306: [((ratio - 1.0).abs() > args.clip_coef).float().mean()] *)
Definition clipfrac (clip_coef : R) (ratio : Row) : R :=
  Tensor.mean
    (fmap (fun r => ValueLoss.float (bool_decide (Rabs (r - 1) > clip_coef)))
          ratio).

(** [x.std()]: the square root of the sum of squared deviations over
    [n - 1]; for a single element that is a division of zero by zero *)
Definition std (x : Row) : option R :=
  v ← Normalizer.div
        (Tensor.sum (fmap (fun a => (a - Tensor.mean x) ^ 2) x))
        (INR (length x) - 1);
  Some (sqrt v).

(** lines 308-310 *)
Definition normalize_advantages (norm_adv : bool) (mb_advantages : Row)
    : option Row :=
  if norm_adv then
    s ← std mb_advantages;
    mapM (fun a => Normalizer.div (a - Tensor.mean mb_advantages)
                     (s + 1 / 100000000))
         mb_advantages
  else Some mb_advantages.

(** lines 313-315, before the mean *)
Definition pg_loss1 (mb_advantages ratio : Row) : Row :=
  mul (fmap Ropp mb_advantages) ratio.

Definition pg_loss2 (clip_coef : R) (mb_advantages ratio : Row) : Row :=
  mul (fmap Ropp mb_advantages)
      (fmap (fun r => ValueLoss.clamp r (1 - clip_coef) (1 + clip_coef)) ratio).

Definition pg_loss_rows (clip_coef : R) (mb_advantages ratio : Row) : Row :=
  zip_with Rmax (pg_loss1 mb_advantages ratio)
                (pg_loss2 clip_coef mb_advantages ratio).

Definition pg_loss (clip_coef : R) (mb_advantages ratio : Row) : R :=
  Tensor.mean (pg_loss_rows clip_coef mb_advantages ratio).

End Policy.

(** ** Value targets of a minibatch pass (lines 319-331) *)

Module Targets.

(** The normalizer after the pass and [target_values]. *)
Definition value_targets (use_value_normalization : bool) (ewa_weigth : R)
    (st : Normalizer.State) (mb_returns : Row)
    : option (Normalizer.State * Row) :=
  if use_value_normalization then
    st' ← Normalizer.update ewa_weigth st mb_returns;
    target_values ← mapM (Normalizer.normalize st') mb_returns;
    Some (st', target_values)
  else Some (st, mb_returns).

End Targets.

(** ** The normalizer's variables through an iteration
       (lines 216-222, 319-331, 378-379) *)

Module Script.

(** The names [running_mean], ..., [mean], [var] as the script has
    them at some point: [None] while they are not bound. *)
Abbreviation Vars := (option Normalizer.State).

(** lines 216-222: the names are bound only under
    [args.use_value_normalization] *)
Definition start (use_value_normalization : bool) : option Vars :=
  if use_value_normalization
  then st ← Normalizer.init; Some (Some st)
  else Some None.

(** Lines 319-331 of one minibatch pass; reading an unbound name is a
    [NameError] ([None]). *)
Definition pass (use_value_normalization : bool) (ewa_weigth : R)
    (vars : Vars) (mb_returns : Row) : option (Vars * Row) :=
  if use_value_normalization then
    st ← vars;
    r ← Targets.value_targets true ewa_weigth st mb_returns;
    Some (Some r.1, r.2)
  else Some (vars, mb_returns).

(** the minibatch passes of an iteration, in order *)
Fixpoint passes (use_value_normalization : bool) (ewa_weigth : R)
    (vars : Vars) (mbs : list Row) : option Vars :=
  match mbs with
  | [] => Some vars
  | mb :: rest =>
      r ← pass use_value_normalization ewa_weigth vars mb;
      passes use_value_normalization ewa_weigth r.1 rest
  end.

(** lines 378-379: [mean.item()] and [var.item()] handed to the writer *)
Definition log_normalizer (vars : Vars) : option (R * R) :=
  st ← vars; Some (Normalizer.mean st, Normalizer.var st).

(** lines 367-373: [grad_norm], [v_loss], [pg_loss], ... are bound by
    a minibatch pass only; in the first iteration, reading them when no
    pass has run is a [NameError] ([None]) *)
Definition log_losses (mbs : list Row) : option unit :=
  match mbs with
  | [] => None
  | _ :: _ => Some tt
  end.

(** from the start of the script to the end of its first iteration,
    [mbs] being the returns of its minibatch passes in order *)
Definition first_iteration_stats (use_value_normalization : bool)
    (ewa_weigth : R) (mbs : list Row) : option (R * R) :=
  vars ← start use_value_normalization;
  vars' ← passes use_value_normalization ewa_weigth vars mbs;
  _ ← log_losses mbs;
  log_normalizer vars'.

End Script.

(** ** Minibatch slices of an epoch (lines 294-296) *)

Module Minibatches.

(** the [mb_inds] of the passes of one epoch, in order *)
Definition epoch_slices (batch_size minibatch_size : nat) (b_inds : list nat)
    : option (list (list nat)) :=
  starts ← Optimizer.py_range batch_size minibatch_size;
  Some (fmap (M := list)
          (fun start : nat =>
             Optimizer.slice b_inds start (start + minibatch_size)%nat)
          starts).

End Minibatches.

(** ** Episode accumulators over several steps *)

Module Episodes.

(** [Episode.step] along the steps of a rollout; the summaries are
    the ones handed to the writer, in order. *)
Fixpoint run_steps (vec_num_envs : R) (a : Episode.Acc)
    (steps : list (Row * list bool)) : Episode.Acc * list Episode.Summary :=
  match steps with
  | [] => (a, [])
  | (reward, next_done) :: rest =>
      let '(a', flushed) := Episode.step vec_num_envs a reward next_done in
      let '(a'', later) := run_steps vec_num_envs a' rest in
      (a'', match flushed with Some s => s :: later | None => later end)
  end.

End Episodes.

(** ** The quantities the specification names

    These follow the specification's wording, not the script; the
    theorems below compare them with what the script computes. *)

Module Spec.

Section Recursion.

Variables (gamma : R) (T : nat).
Variables (rewards dones values : Table) (next_done next_value : Row).

(** [V_T] at [t = T-1], [value[t+1]] otherwise *)
Definition nextvalue (t s : nat) : R :=
  if (t =? T - 1)%nat then next_value !!! s else at2 values (t + 1) s.

(** [d_T] at [t = T-1], [done[t+1]] otherwise *)
Definition nextdone (t s : nat) : R :=
  if (t =? T - 1)%nat then next_done !!! s else at2 dones (t + 1) s.

(** the one-step TD error *)
Definition delta (t s : nat) : R :=
  at2 rewards t s + gamma * nextvalue t s * (1 - nextdone t s) - at2 values t s.

(** the advantage carried into step [t]: zero at [t = T-1], the
    advantage of step [t+1] otherwise *)
Definition carry (advantages : Table) (t s : nat) : R :=
  if (t =? T - 1)%nat then 0 else at2 advantages (t + 1) s.

(** the recursion's equation for the advantage at [(t, s)] *)
Definition gae_equation (gae_lambda : R) (advantages : Table) (t s : nat) : Prop :=
  at2 advantages t s
  = delta t s + gamma * gae_lambda * (1 - nextdone t s) * carry advantages t s.

(** The discounted return-to-go of the last [k] steps, bootstrapped
    with [V_T]; a done flag cuts the accumulation. *)
Fixpoint return_to_go_last (k s : nat) : R :=
  match k with
  | O => next_value !!! s
  | S k' =>
      let t := (T - 1 - k')%nat in
      at2 rewards t s + gamma * (1 - nextdone t s) * return_to_go_last k' s
  end.

(** the discounted return-to-go from step [t] *)
Definition discounted_return (t s : nat) : R := return_to_go_last (T - t) s.

End Recursion.

(** the mean of [x] over the flagged slots, each slot weighted by its
    flag *)
Definition mean_over_flagged (x : Row) (next_done : list bool) : R :=
  Tensor.sum (mul x (Episode.as_float next_done))
  / Tensor.sum (Episode.as_float next_done).


End Spec.

(** * Properties *)

(** ** Tensor lemmas *)

Lemma zeros_length n : length (zeros n) = n.
Proof. apply length_replicate. Qed.

Lemma add_length a b : length (add a b) = Nat.min (length a) (length b).
Proof. apply length_zip_with. Qed.

Lemma sub_length a b : length (sub a b) = Nat.min (length a) (length b).
Proof. apply length_zip_with. Qed.

Lemma mul_length a b : length (mul a b) = Nat.min (length a) (length b).
Proof. apply length_zip_with. Qed.

Lemma scale_length k a : length (scale k a) = length a.
Proof. apply length_fmap. Qed.

Lemma rsub_length k a : length (rsub k a) = length a.
Proof. apply length_fmap. Qed.

Create Rewrite HintDb tensor_len.
#[local] Hint Rewrite zeros_length add_length sub_length mul_length
  scale_length rsub_length : tensor_len.

Ltac len := autorewrite with tensor_len in *; lia.

Lemma zip_with_at (f : R -> R -> R) (a b : Row) s :
  (s < length a)%nat -> (s < length b)%nat ->
  zip_with f a b !!! s = f (a !!! s) (b !!! s).
Proof. intros; by apply lookup_total_zip_with. Qed.

Lemma add_at a b s :
  (s < length a)%nat -> (s < length b)%nat -> add a b !!! s = a !!! s + b !!! s.
Proof. intros; by apply zip_with_at. Qed.

Lemma sub_at a b s :
  (s < length a)%nat -> (s < length b)%nat -> sub a b !!! s = a !!! s - b !!! s.
Proof. intros; by apply zip_with_at. Qed.

Lemma mul_at a b s :
  (s < length a)%nat -> (s < length b)%nat -> mul a b !!! s = a !!! s * b !!! s.
Proof. intros; by apply zip_with_at. Qed.

Lemma scale_at k a s : (s < length a)%nat -> scale k a !!! s = k * a !!! s.
Proof. intros; by apply list_lookup_total_fmap. Qed.

Lemma rsub_at k a s : (s < length a)%nat -> rsub k a !!! s = k - a !!! s.
Proof. intros; by apply list_lookup_total_fmap. Qed.

Lemma zeros_at n s : (s < n)%nat -> zeros n !!! s = 0.
Proof. intros; unfold zeros; by rewrite lookup_total_replicate_2. Qed.

Lemma set_in_range (tbl : Table) t r :
  (t < length tbl)%nat -> Tensor.set tbl t r = Some (<[t := r]> tbl).
Proof.
  intros Ht; unfold Tensor.set.
  by destruct (Nat.ltb_spec t (length tbl)); [|lia].
Qed.

Lemma get_in_range (tbl : Table) t :
  (t < length tbl)%nat -> get tbl t = Some (tbl !!! t).
Proof. intros; unfold get; by apply list_lookup_lookup_total_lt. Qed.

Lemma shaped_row t n (tbl : Table) i :
  shaped t n tbl -> (i < t)%nat -> length (tbl !!! i) = n.
Proof.
  intros [Hl Hr] Hi. rewrite Forall_lookup_total in Hr. apply Hr; lia.
Qed.

Lemma shaped_insert t n (tbl : Table) i r :
  shaped t n tbl -> length r = n -> shaped t n (<[i := r]> tbl).
Proof.
  intros [Hl Hr] Hn; split; [by rewrite length_insert|by apply Forall_insert].
Qed.

Lemma shaped_zeros2 t n : shaped t n (zeros2 t n).
Proof.
  split; [apply length_replicate|].
  apply Forall_replicate, zeros_length.
Qed.

Lemma add2_at t n (a b : Table) i s :
  shaped t n a -> shaped t n b -> (i < t)%nat -> (s < n)%nat ->
  at2 (add2 a b) i s = at2 a i s + at2 b i s.
Proof.
  intros Ha Hb Hi Hs. unfold at2, add2.
  assert (Hz : zip_with add a b !!! i = add (a !!! i) (b !!! i))
    by (apply lookup_total_zip_with; destruct Ha, Hb; lia).
  rewrite Hz. apply add_at; erewrite shaped_row; eauto.
Qed.

(** ** The GAE backward pass *)

Section GAE_facts.

Variables (gamma gae_lambda : R) (T N : nat).
Variables (rewards dones values : Table) (next_done next_value : Row).
Hypothesis Hrewards : shaped T N rewards.
Hypothesis Hdones : shaped T N dones.
Hypothesis Hvalues : shaped T N values.
Hypothesis Hnext_done : length next_done = N.
Hypothesis Hnext_value : length next_value = N.

Let body := GAE.body gamma gae_lambda T rewards dones values next_done next_value.
Let loop := GAE.loop gamma gae_lambda T rewards dones values next_done next_value.
Let delta := Spec.delta gamma T rewards dones values next_done next_value.
Let nextdone := Spec.nextdone T dones next_done.
Let equation := Spec.gae_equation gamma T rewards dones values next_done next_value gae_lambda.

(** One pass writes row [t] and leaves it in the carry; on each slot
    the row is the TD error plus the discounted carry. *)
Lemma body_row t (adv : Table) (last : Row) :
  (t < T)%nat -> shaped T N adv -> length last = N ->
  exists row : Row,
    body t (adv, last) = Some (<[t := row]> adv, row)
    /\ length row = N
    /\ forall s, (s < N)%nat ->
         row !!! s
         = delta t s + gamma * gae_lambda * (1 - nextdone t s) * last !!! s.
Proof.
  intros Ht Hadv Hlast.
  pose proof (shaped_row _ _ _ t Hrewards Ht) as Lr.
  pose proof (shaped_row _ _ _ t Hvalues Ht) as Lv.
  destruct Hrewards as [Lrw _], Hvalues as [Lvl _], Hdones as [Ldn _].
  destruct Hadv as [Ladv Hrows].
  unfold body, GAE.body, delta, nextdone, Spec.delta, Spec.nextvalue, Spec.nextdone.
  destruct (Nat.eqb_spec t (T - 1)) as [E|E]; cbn.
  - rewrite !get_in_range by lia; cbn.
    rewrite set_in_range by lia; cbn.
    eexists; split; [reflexivity|]. split; [len|].
    intros s Hs. unfold at2.
    rewrite add_at, sub_at, add_at, !mul_at, !scale_at, !rsub_at by len.
    ring.
  - assert (Ht1 : (t + 1 < T)%nat) by lia.
    pose proof (shaped_row _ _ _ (t + 1)%nat Hdones Ht1) as Ld1.
    pose proof (shaped_row _ _ _ (t + 1)%nat Hvalues Ht1) as Lv1.
    rewrite !get_in_range by lia; cbn.
    rewrite set_in_range by lia; cbn.
    eexists; split; [reflexivity|]. split; [len|].
    intros s Hs. unfold at2.
    rewrite add_at, sub_at, add_at, !mul_at, !scale_at, !rsub_at by len.
    ring.
Qed.

Lemma loop_S t st : loop (S t) st = body t st ≫= loop t.
Proof. reflexivity. Qed.

(** The loop keeps the recursion on every row it has written. *)
Lemma loop_invariant n :
  forall (adv : Table) (last : Row),
    (n <= T)%nat -> shaped T N adv -> length last = N ->
    (forall s, (s < N)%nat ->
       last !!! s = if (n =? T)%nat then 0 else at2 adv n s) ->
    (forall t s, (n <= t < T)%nat -> (s < N)%nat -> equation adv t s) ->
    exists (adv' : Table) (last' : Row),
      loop n (adv, last) = Some (adv', last')
      /\ shaped T N adv'
      /\ forall t s, (t < T)%nat -> (s < N)%nat -> equation adv' t s.
Proof.
  induction n as [|t IH]; intros adv last Hn Hadv Hlast Hcarry Hdone.
  - exists adv, last. split; [done|]. split; [done|].
    intros t s Ht Hs; apply Hdone; [lia|done].
  - destruct (body_row t adv last) as (row & Hbody & Hlen & Hrow); [lia|done|done|].
    rewrite loop_S, Hbody; cbn.
    assert (Ladv : length adv = T) by (by destruct Hadv).
    apply IH; [lia|by apply shaped_insert|done| |].
    + intros s Hs. destruct (Nat.eqb_spec t T) as [?|_]; [lia|].
      unfold at2. by rewrite list_lookup_total_insert_eq by lia.
    + intros t' s Ht' Hs. unfold equation, Spec.gae_equation, Spec.carry, at2.
      destruct (Nat.eq_dec t' t) as [->|Hne].
      * rewrite list_lookup_total_insert_eq by lia.
        rewrite Hrow by done. rewrite (Hcarry s Hs). unfold at2.
        rewrite (list_lookup_total_insert_ne adv t (t + 1)) by lia.
        replace (t + 1)%nat with (S t) by lia.
        destruct (Nat.eqb_spec (S t) T), (Nat.eqb_spec t (T - 1)); try lia; done.
      * rewrite (list_lookup_total_insert_ne adv t t') by lia.
        rewrite (list_lookup_total_insert_ne adv t (t' + 1)) by lia.
        apply Hdone; [lia|done].
Qed.

(** The backward pass returns, and its tables satisfy the recursion
    and [return = advantage + value] at every step and slot. *)
Lemma gae_tables :
  exists adv ret : Table,
    GAE.gae gamma gae_lambda T N rewards dones values next_done next_value
    = Some (adv, ret)
    /\ shaped T N adv /\ shaped T N ret
    /\ forall t s, (t < T)%nat -> (s < N)%nat ->
         equation adv t s /\ at2 ret t s = at2 adv t s + at2 values t s.
Proof.
  destruct (loop_invariant T (zeros2 T N) (zeros N))
    as (adv & last & Hloop & Hadv & Heq).
  - lia.
  - apply shaped_zeros2.
  - apply zeros_length.
  - intros s Hs. rewrite Nat.eqb_refl. by apply zeros_at.
  - intros; lia.
  - exists adv, (add2 adv values). unfold GAE.gae.
    destruct Hrewards as [-> _]. fold loop. rewrite Hloop; cbn.
    split; [done|]. split; [done|]. split.
    + destruct Hadv as [La Ha], Hvalues as [Lv Hv]. split.
      * unfold add2. rewrite length_zip_with. lia.
      * rewrite Forall_lookup_total. intros i Hi. unfold add2 in *.
        rewrite length_zip_with in Hi.
        assert (Hz : zip_with add adv values !!! i = add (adv !!! i) (values !!! i))
          by (apply lookup_total_zip_with; lia).
        rewrite Hz, add_length.
        rewrite Forall_lookup_total in Ha, Hv.
        rewrite Ha, Hv by lia. lia.
    + intros t s Ht Hs. split; [by apply Heq|].
      by apply (add2_at T N).
Qed.

End GAE_facts.

(** C1. For a filled rollout buffer of [T] steps and [N] slots, a
    bootstrap value and a bootstrap done flag, the backward pass
    returns an advantage table and a return table such that, at every
    step [t] and slot [s], the advantage is
    [delta + gamma * lambda * (1 - nextdone) * carry], with
    [delta = reward[t] + gamma * nextvalue * (1 - nextdone) - value[t]],
    [nextvalue]/[nextdone] the bootstrap at [t = T-1] and the entries of
    step [t+1] otherwise, [carry] zero at [t = T-1] and the advantage of
    step [t+1] otherwise; and the return is advantage plus value.  On
    the two-step scenario of the specification the tables are
    [2.40575, 1.5] and [2.90575, 2]. *)
Theorem gae_satisfies_recursion :
  (forall (gamma gae_lambda : R) (T N : nat)
          (rewards dones values : Table) (next_done next_value : Row),
      shaped T N rewards -> shaped T N dones -> shaped T N values ->
      length next_done = N -> length next_value = N ->
      exists advantages returns : Table,
        GAE.gae gamma gae_lambda T N rewards dones values next_done next_value
        = Some (advantages, returns)
        /\ forall t s, (t < T)%nat -> (s < N)%nat ->
             at2 advantages t s
             = Spec.delta gamma T rewards dones values next_done next_value t s
               + gamma * gae_lambda * (1 - Spec.nextdone T dones next_done t s)
                 * Spec.carry T advantages t s
             /\ at2 returns t s = at2 advantages t s + at2 values t s)
  /\ GAE.gae 0.99 0.95 2 1 [[1]; [2]] [[0]; [0]] [[0.5]; [0.5]] [1] [0]
     = Some ([[2.40575]; [1.5]], [[2.90575]; [2]]).
Proof.
  split.
  - intros gamma gae_lambda T N rewards dones values next_done next_value
      Hr Hd Hv Hnd Hnv.
    destruct (gae_tables gamma gae_lambda T N rewards dones values
                next_done next_value Hr Hd Hv Hnd Hnv)
      as (adv & ret & Hgae & _ & _ & Heq).
    exists adv, ret. split; [exact Hgae|]. exact Heq.
  - cbn. repeat f_equal; lra.
Qed.

(** The general part of C1 at the scenario's buffer. *)
Lemma gae_satisfies_recursion_witness :
  exists advantages returns : Table,
    GAE.gae 0.99 0.95 2 1 [[1]; [2]] [[0]; [0]] [[0.5]; [0.5]] [1] [0]
    = Some (advantages, returns)
    /\ forall t s, (t < 2)%nat -> (s < 1)%nat ->
         at2 advantages t s
         = Spec.delta 0.99 2 [[1]; [2]] [[0]; [0]] [[0.5]; [0.5]] [1] [0] t s
           + 0.99 * 0.95 * (1 - Spec.nextdone 2 [[0]; [0]] [1] t s)
             * Spec.carry 2 advantages t s
         /\ at2 returns t s = at2 advantages t s + at2 [[0.5]; [0.5]] t s.
Proof.
  apply (proj1 gae_satisfies_recursion);
    try reflexivity; (split; [reflexivity | repeat constructor]).
Defined.

(** ** The two ends of the lambda range *)

Section GAE_limits.

Variables (gamma : R) (T N : nat).
Variables (rewards dones values : Table) (next_done next_value : Row).
Variables (advantages : Table) (s : nat).

Let equation := Spec.gae_equation gamma T rewards dones values next_done next_value.
Let rtg := Spec.return_to_go_last gamma T rewards dones next_done next_value.

(** With [lambda = 1] advantage plus value telescopes into the
    discounted return-to-go. *)
Lemma lambda_one_telescopes :
  (forall t, (t < T)%nat -> equation 1 advantages t s) ->
  forall k t, (t < T)%nat -> (T - t)%nat = k ->
    at2 advantages t s + at2 values t s = rtg k s.
Proof.
  intros Heq k. induction k as [|k IH]; intros t Ht Hk; [lia|].
  specialize (Heq t Ht).
  unfold equation, Spec.gae_equation, Spec.delta, Spec.carry,
    Spec.nextvalue in Heq.
  unfold rtg; cbn [Spec.return_to_go_last]; fold rtg.
  replace (T - 1 - k)%nat with t by lia.
  destruct (Nat.eqb_spec t (T - 1)) as [E|E].
  - assert (k = 0%nat) as -> by lia. unfold rtg; cbn. lra.
  - assert (Hnext : at2 advantages (t + 1) s + at2 values (t + 1) s = rtg k s)
      by (apply IH; lia).
    rewrite <- Hnext, Heq. ring.
Qed.

End GAE_limits.

(** C3. With [lambda = 1] the advantage at every step and slot is the
    discounted return-to-go (bootstrapped with [V_T], cut at done flags)
    minus the value, so the return is that discounted return; with
    [lambda = 0] the advantage is the one-step TD error. *)
Theorem gae_lambda_one_and_zero :
  forall (gamma : R) (T N : nat)
         (rewards dones values : Table) (next_done next_value : Row),
    shaped T N rewards -> shaped T N dones -> shaped T N values ->
    length next_done = N -> length next_value = N ->
    (exists advantages returns : Table,
       GAE.gae gamma 1 T N rewards dones values next_done next_value
       = Some (advantages, returns)
       /\ forall t s, (t < T)%nat -> (s < N)%nat ->
            at2 advantages t s
            = Spec.discounted_return gamma T rewards dones next_done next_value t s
              - at2 values t s
            /\ at2 returns t s
               = Spec.discounted_return gamma T rewards dones next_done next_value t s)
    /\ (exists advantages returns : Table,
          GAE.gae gamma 0 T N rewards dones values next_done next_value
          = Some (advantages, returns)
          /\ forall t s, (t < T)%nat -> (s < N)%nat ->
               at2 advantages t s
               = at2 rewards t s
                 + gamma * Spec.nextvalue T values next_value t s
                   * (1 - Spec.nextdone T dones next_done t s)
                 - at2 values t s).
Proof.
  intros gamma T N rewards dones values next_done next_value Hr Hd Hv Hnd Hnv.
  split.
  - destruct (gae_tables gamma 1 T N rewards dones values
                next_done next_value Hr Hd Hv Hnd Hnv)
      as (adv & ret & Hgae & _ & _ & Heq).
    exists adv, ret. split; [exact Hgae|]. intros t s Ht Hs.
    assert (Hsum : at2 adv t s + at2 values t s
                   = Spec.discounted_return gamma T rewards dones
                       next_done next_value t s).
    { unfold Spec.discounted_return.
      apply (lambda_one_telescopes gamma T rewards dones values
               next_done next_value adv s); [|done|done].
      intros t' Ht'. by apply Heq. }
    destruct (Heq t s Ht Hs) as [_ Hret]. rewrite Hret. lra.
  - destruct (gae_tables gamma 0 T N rewards dones values
                next_done next_value Hr Hd Hv Hnd Hnv)
      as (adv & ret & Hgae & _ & _ & Heq).
    exists adv, ret. split; [exact Hgae|]. intros t s Ht Hs.
    destruct (Heq t s Ht Hs) as [Hadv _].
    unfold Spec.gae_equation, Spec.delta in Hadv. rewrite Hadv. ring.
Qed.

(** C3 on a three-step buffer with a done flag in the middle. *)
Lemma gae_lambda_one_and_zero_witness :
  (exists advantages returns : Table,
     GAE.gae 0.5 1 3 1 [[1]; [2]; [4]] [[0]; [1]; [0]] [[3]; [5]; [7]] [0] [8]
     = Some (advantages, returns)
     /\ forall t s, (t < 3)%nat -> (s < 1)%nat ->
          at2 advantages t s
          = Spec.discounted_return 0.5 3 [[1]; [2]; [4]] [[0]; [1]; [0]] [0] [8] t s
            - at2 [[3]; [5]; [7]] t s
          /\ at2 returns t s
             = Spec.discounted_return 0.5 3 [[1]; [2]; [4]] [[0]; [1]; [0]] [0] [8] t s)
  /\ (exists advantages returns : Table,
        GAE.gae 0.5 0 3 1 [[1]; [2]; [4]] [[0]; [1]; [0]] [[3]; [5]; [7]] [0] [8]
        = Some (advantages, returns)
        /\ forall t s, (t < 3)%nat -> (s < 1)%nat ->
             at2 advantages t s
             = at2 [[1]; [2]; [4]] t s
               + 0.5 * Spec.nextvalue 3 [[3]; [5]; [7]] [8] t s
                 * (1 - Spec.nextdone 3 [[0]; [1]; [0]] [0] t s)
               - at2 [[3]; [5]; [7]] t s).
Proof.
  apply gae_lambda_one_and_zero;
    try reflexivity; (split; [reflexivity | repeat constructor]).
Defined.

(** ** The return normalizer *)

Module NormalizerFacts.
Import Normalizer.

Lemma eps_debias_pos : 0 < eps_debias.
Proof. unfold eps_debias; lra. Qed.

Lemma eps_var_pos : 0 < eps_var.
Proof. unfold eps_var; lra. Qed.

Lemma clamp_min_floor x lo : lo <= clamp_min x lo.
Proof. apply Rmax_r. Qed.

Lemma clamp_min_pos x lo : 0 < lo -> 0 < clamp_min x lo.
Proof. intros; pose proof (clamp_min_floor x lo); lra. Qed.

Lemma div_nonzero x y : y <> 0 -> div x y = Some (x / y).
Proof. intros Hy; unfold div; by destruct (Req_dec_T y 0). Qed.

Lemma div_zero x : div x 0 = None.
Proof. unfold div; by destruct (Req_dec_T 0 0). Qed.

(** Reading [mean] and [var] off any accumulators divides by a
    positive number only. *)
Lemma derive_total rm rms db :
  derive rm rms db
  = Some (rm / clamp_min db eps_debias,
          clamp_min (rms / clamp_min db eps_debias
                     - (rm / clamp_min db eps_debias) ^ 2) eps_var).
Proof.
  unfold derive.
  pose proof (clamp_min_pos db eps_debias eps_debias_pos).
  rewrite !div_nonzero by lra. reflexivity.
Qed.

Lemma init_total : init = Some (mkState 0 0 0 0 eps_var).
Proof.
  unfold init. rewrite derive_total; cbn. f_equal. f_equal.
  - unfold Rdiv; ring.
  - unfold clamp_min. rewrite Rmax_right; [done|].
    unfold Rdiv; rewrite !Rmult_0_l. unfold eps_var; lra.
Qed.

(** the mean of a non-empty tensor divides by a positive count *)
Lemma mean_of_nonempty (a : Row) :
  a <> [] -> mean_of a = Some (Tensor.mean a).
Proof.
  intros Ha. unfold mean_of, Tensor.mean. apply div_nonzero.
  apply not_0_INR. destruct a; [done|cbn; lia].
Qed.

Lemma update_total ewa st (mb : Row) :
  mb <> [] ->
  exists st', update ewa st mb = Some st'
    /\ running_mean st' = ewa * running_mean st + (1 - ewa) * Tensor.mean mb
    /\ running_mean_sq st'
       = ewa * running_mean_sq st
         + (1 - ewa) * Tensor.mean (fmap (fun x => x ^ 2) mb)
    /\ debiasing_term st' = ewa * debiasing_term st + (1 - ewa) * 1
    /\ coherent st'.
Proof.
  intros Hmb. unfold update.
  rewrite !mean_of_nonempty by (by destruct mb). cbn.
  rewrite derive_total; cbn.
  eexists; split; [reflexivity|]. cbn. repeat split; try reflexivity.
  unfold coherent; cbn. by rewrite derive_total.
Qed.

Lemma coherent_var st : coherent st -> eps_var <= var st.
Proof.
  unfold coherent; rewrite derive_total. intros [= _ <-].
  apply clamp_min_floor.
Qed.

Lemma reachable_coherent ewa st : reachable ewa st -> coherent st.
Proof.
  intros [st0 Hinit | st0 mb st' _ Hmb Hupd].
  - rewrite init_total in Hinit. injection Hinit as <-.
    unfold coherent; cbn. rewrite derive_total. f_equal. f_equal.
    + unfold Rdiv; ring.
    + unfold clamp_min. rewrite Rmax_right; [done|].
      unfold Rdiv; rewrite !Rmult_0_l. unfold eps_var; lra.
  - destruct (update_total ewa st0 mb Hmb) as (st'' & Hupd' & _ & _ & _ & Hc).
    congruence.
Qed.

Lemma std_pos st : eps_var <= var st -> 0 < sqrt (var st).
Proof. intros; apply sqrt_lt_R0. pose proof eps_var_pos; lra. Qed.

Lemma normalize_total st x :
  0 < var st -> normalize st x = Some ((x - mean st) / sqrt (var st)).
Proof.
  intros Hv; unfold normalize. apply div_nonzero.
  pose proof (sqrt_lt_R0 _ Hv); lra.
Qed.

End NormalizerFacts.

(** C4. For a fixed normalizer state with [var > 0], normalizing a
    value divides by a nonzero number, and denormalizing the result
    gives the value back. *)
Theorem denormalize_normalize :
  forall (st : Normalizer.State) (x : R),
    0 < Normalizer.var st ->
    exists y, Normalizer.normalize st x = Some y
              /\ Normalizer.denormalize st y = x.
Proof.
  intros st x Hv.
  exists ((x - Normalizer.mean st) / sqrt (Normalizer.var st)).
  split; [by apply NormalizerFacts.normalize_total|].
  unfold Normalizer.denormalize.
  pose proof (sqrt_lt_R0 _ Hv). field. lra.
Qed.

(** C4 at mean 3, var 4 and the value 10. *)
Lemma denormalize_normalize_witness :
  exists y, Normalizer.normalize (Normalizer.mkState 0 0 0 3 4) 10 = Some y
            /\ Normalizer.denormalize (Normalizer.mkState 0 0 0 3 4) y = 10.
Proof. apply denormalize_normalize; simpl; lra. Defined.

(** C6. The initial read succeeds, and in every state the script can
    reach no read or write of the normalizer divides by zero: the
    debiasing term is at least [1e-5] once clamped, the variance is at
    least [1e-2], its square root is positive, normalizing succeeds on
    every value and the next update succeeds on every (non-empty)
    minibatch. *)
Theorem normalizer_never_divides_by_zero :
  (exists st0, Normalizer.init = Some st0)
  /\ forall (ewa_weigth : R) (st : Normalizer.State),
       Normalizer.reachable ewa_weigth st ->
       Normalizer.eps_debias
         <= Normalizer.clamp_min (Normalizer.debiasing_term st) Normalizer.eps_debias
       /\ 0 < Normalizer.clamp_min (Normalizer.debiasing_term st) Normalizer.eps_debias
       /\ Normalizer.eps_var <= Normalizer.var st
       /\ 0 < sqrt (Normalizer.var st)
       /\ (forall x, exists y, Normalizer.normalize st x = Some y)
       /\ (forall mb : Row, mb <> [] ->
             exists st', Normalizer.update ewa_weigth st mb = Some st').
Proof.
  split; [eexists; apply NormalizerFacts.init_total|].
  intros ewa st Hreach.
  pose proof (NormalizerFacts.coherent_var st
                (NormalizerFacts.reachable_coherent ewa st Hreach)) as Hvar.
  pose proof NormalizerFacts.eps_var_pos as Hpos.
  split; [apply NormalizerFacts.clamp_min_floor|].
  split; [apply NormalizerFacts.clamp_min_pos, NormalizerFacts.eps_debias_pos|].
  split; [exact Hvar|].
  split; [by apply NormalizerFacts.std_pos|].
  split.
  - intros x. eexists. apply NormalizerFacts.normalize_total. lra.
  - intros mb Hmb.
    destruct (NormalizerFacts.update_total ewa st mb Hmb) as (st' & H & _).
    by exists st'.
Qed.

(** C6 in the state after one update of the initial state, with decay
    [0.5] and the minibatch [[2]]. *)
Lemma normalizer_never_divides_by_zero_witness :
  exists st : Normalizer.State,
    Normalizer.run 0.5 [[2]] = Some st
    /\ Normalizer.eps_debias
         <= Normalizer.clamp_min (Normalizer.debiasing_term st) Normalizer.eps_debias
    /\ 0 < Normalizer.clamp_min (Normalizer.debiasing_term st) Normalizer.eps_debias
    /\ Normalizer.eps_var <= Normalizer.var st
    /\ 0 < sqrt (Normalizer.var st)
    /\ (forall x, exists y, Normalizer.normalize st x = Some y)
    /\ (forall mb : Row, mb <> [] ->
          exists st', Normalizer.update 0.5 st mb = Some st').
Proof.
  destruct (NormalizerFacts.update_total 0.5
              (Normalizer.mkState 0 0 0 0 Normalizer.eps_var) [2] ltac:(discriminate))
    as (st & Hupd & _).
  exists st. split.
  - unfold Normalizer.run. rewrite NormalizerFacts.init_total. cbn.
    rewrite Hupd. reflexivity.
  - apply (proj2 normalizer_never_divides_by_zero 0.5).
    apply (Normalizer.reach_update 0.5
             (Normalizer.mkState 0 0 0 0 Normalizer.eps_var) [2] st);
      [|discriminate|exact Hupd].
    apply Normalizer.reach_init, NormalizerFacts.init_total.
Defined.

(** ** Feeding the normalizer a constant *)

Module ConstantFeed.
Import Normalizer NormalizerFacts.

Lemma sum_replicate k c : Tensor.sum (replicate k c) = INR k * c.
Proof.
  induction k as [|k IH]; [cbn; ring|].
  rewrite S_INR. cbn [replicate Tensor.sum fold_right].
  unfold Tensor.sum in IH. rewrite IH. ring.
Qed.

Lemma mean_replicate k c : (0 < k)%nat -> Tensor.mean (replicate k c) = c.
Proof.
  intros Hk. unfold Tensor.mean. rewrite sum_replicate, length_replicate.
  field. apply not_0_INR. lia.
Qed.

Section Feed.

Variables (ewa c : R) (k : nat).
Hypothesis Hk : (0 < k)%nat.



End Feed.

End ConstantFeed.

Section ConstantFeedStart.
Import Normalizer NormalizerFacts.


End ConstantFeedStart.




(** ** Values entering the advantage phase *)

Section RolloutFacts.

Variable critic : nat -> Row.

(** Writing rows [a, a+1, ..., a+n-1] succeeds inside the table and
    touches nothing else. *)
Lemma record_rows n :
  forall a (vs : Table),
    (a + n <= length vs)%nat ->
    exists vs' : Table,
      Rollout.for_each (seq a n)
        (fun step vs => Tensor.set vs step (critic step)) vs = Some vs'
      /\ length vs' = length vs
      /\ forall i, vs' !! i
           = if decide (a <= i < a + n)%nat then Some (critic i) else vs !! i.
Proof.
  induction n as [|n IH]; intros a vs Hlen.
  - exists vs. split; [done|]. split; [done|].
    intros i. destruct (decide _); [lia|done].
  - cbn [seq Rollout.for_each]. rewrite set_in_range by lia. cbn.
    destruct (IH (S a) (<[a := critic a]> vs)) as (vs' & Hrun & Hl & Hlook).
    { rewrite length_insert. lia. }
    exists vs'. split; [done|]. rewrite length_insert in Hl. split; [done|].
    intros i. rewrite Hlook.
    destruct (decide (S a <= i < S a + n)%nat), (decide (a <= i < a + S n)%nat);
      try lia; try done.
    + assert (i = a) as -> by lia. apply list_lookup_insert_eq. lia.
    + apply list_lookup_insert_ne. lia.
Qed.

(** The rollout leaves exactly this iteration's critic outputs in
    [values], whatever the table held before. *)
Lemma record_values_total T (old : Table) :
  length old = T ->
  Rollout.record_values T critic old = Some (critic <$> seq 0 T).
Proof.
  intros Hlen. unfold Rollout.record_values.
  destruct (record_rows T 0 old) as (vs' & Hrun & Hl & Hlook); [lia|].
  rewrite Hrun. f_equal. apply list_eq. intros i.
  rewrite Hlook, list_lookup_fmap.
  destruct (decide (0 <= i < 0 + T)%nat).
  - rewrite lookup_seq_lt by lia. done.
  - rewrite lookup_seq_ge by lia. apply lookup_ge_None_2. lia.
Qed.

Lemma critic_table_shaped T N :
  (forall t, (t < T)%nat -> length (critic t) = N) ->
  shaped T N (critic <$> seq 0 T).
Proof.
  intros Hc. split; [by rewrite length_fmap, length_seq|].
  rewrite Forall_fmap. apply Forall_forall. intros t Ht.
  apply elem_of_seq in Ht. apply Hc. lia.
Qed.

Lemma critic_table_at T t s :
  (t < T)%nat -> at2 (critic <$> seq 0 T) t s = critic t !!! s.
Proof.
  intros Ht. unfold at2.
  assert (H : (critic <$> seq 0 T) !!! t = critic t).
  { apply list_lookup_total_correct.
    by rewrite list_lookup_fmap, lookup_seq_lt. }
  by rewrite H.
Qed.

End RolloutFacts.

Lemma denormalize_row_at norm (r : Row) s :
  (s < length r)%nat ->
  Normalizer.denormalize_row norm r !!! s
  = r !!! s * sqrt (Normalizer.var norm) + Normalizer.mean norm.
Proof.
  intros Hs. unfold Normalizer.denormalize_row.
  assert (H : (Normalizer.denormalize norm <$> r) !!! s
              = Normalizer.denormalize norm (r !!! s))
    by (by apply list_lookup_total_fmap).
  by rewrite H.
Qed.

Lemma denormalize_table_shaped norm T N (tbl : Table) :
  shaped T N tbl -> shaped T N (Normalizer.denormalize_table norm tbl).
Proof.
  intros [Hl Hr]. unfold Normalizer.denormalize_table. split.
  - by rewrite length_fmap.
  - rewrite Forall_fmap. eapply Forall_impl; [exact Hr|].
    intros r Hlen. cbn. unfold Normalizer.denormalize_row.
    by rewrite length_fmap.
Qed.

Lemma denormalize_table_at norm T N (tbl : Table) t s :
  shaped T N tbl -> (t < T)%nat -> (s < N)%nat ->
  at2 (Normalizer.denormalize_table norm tbl) t s
  = at2 tbl t s * sqrt (Normalizer.var norm) + Normalizer.mean norm.
Proof.
  intros Hsh Ht Hs. unfold at2, Normalizer.denormalize_table.
  assert (H : (Normalizer.denormalize_row norm <$> tbl) !!! t
              = Normalizer.denormalize_row norm (tbl !!! t))
    by (apply list_lookup_total_fmap; destruct Hsh; lia).
  rewrite H. apply denormalize_row_at.
  by rewrite (shaped_row T N).
Qed.

(** C2. In every iteration the values that enter the GAE recursion are
    this iteration's critic outputs; with value normalization enabled
    each stored value and the bootstrap value is first mapped to
    [v * sqrt(var) + mean] with the normalizer's [mean] and [var], and
    the recursion (every delta, every advantage, every return) is that
    of the mapped values; with normalization disabled the critic
    outputs enter unchanged.  The normalizer state being one the script
    can reach, the [mean] and [var] used are the ones derived from its
    current accumulators. *)
Theorem values_denormalized_before_gae :
  forall (ewa_weigth : R) (norm : Normalizer.State)
         (gamma gae_lambda : R) (T N : nat)
         (critic : nat -> Row) (critic_next : Row)
         (rewards dones old_values : Table) (next_done : Row),
    Normalizer.reachable ewa_weigth norm ->
    shaped T N rewards -> shaped T N dones -> length old_values = T ->
    (forall t, (t < T)%nat -> length (critic t) = N) ->
    length critic_next = N -> length next_done = N ->
    (exists raw advantages returns : Table,
       Rollout.iteration_values true norm gamma gae_lambda T N
         critic critic_next rewards dones old_values next_done
       = Some (raw, advantages, returns)
       /\ GAE.gae gamma gae_lambda T N rewards dones raw next_done
            (Normalizer.denormalize_row norm critic_next)
          = Some (advantages, returns)
       /\ (forall s, (s < N)%nat ->
             Normalizer.denormalize_row norm critic_next !!! s
             = critic_next !!! s * sqrt (Normalizer.var norm)
               + Normalizer.mean norm)
       /\ forall t s, (t < T)%nat -> (s < N)%nat ->
            at2 raw t s
            = critic t !!! s * sqrt (Normalizer.var norm) + Normalizer.mean norm
            /\ Spec.gae_equation gamma T rewards dones raw next_done
                 (Normalizer.denormalize_row norm critic_next)
                 gae_lambda advantages t s
            /\ at2 returns t s = at2 advantages t s + at2 raw t s)
    /\ (exists advantages returns : Table,
          Rollout.iteration_values false norm gamma gae_lambda T N
            critic critic_next rewards dones old_values next_done
          = Some (critic <$> seq 0 T, advantages, returns)
          /\ GAE.gae gamma gae_lambda T N rewards dones (critic <$> seq 0 T)
               next_done critic_next
             = Some (advantages, returns)
          /\ forall t s, (t < T)%nat -> (s < N)%nat ->
               at2 (critic <$> seq 0 T) t s = critic t !!! s)
    /\ Normalizer.derive (Normalizer.running_mean norm)
         (Normalizer.running_mean_sq norm) (Normalizer.debiasing_term norm)
       = Some (Normalizer.mean norm, Normalizer.var norm).
Proof.
  intros ewa norm gamma gae_lambda T N critic critic_next rewards dones old
    next_done Hreach Hr Hd Hold Hcritic Hnext Hnd.
  pose proof (critic_table_shaped critic T N Hcritic) as Hshape.
  split; [|split].
  - pose proof (denormalize_table_shaped norm T N _ Hshape) as Hraw.
    assert (Hnv : length (Normalizer.denormalize_row norm critic_next) = N)
      by (unfold Normalizer.denormalize_row; by rewrite length_fmap).
    destruct (gae_tables gamma gae_lambda T N rewards dones _ next_done _
                Hr Hd Hraw Hnd Hnv) as (adv & ret & Hgae & _ & _ & Heq).
    exists (Normalizer.denormalize_table norm (critic <$> seq 0 T)), adv, ret.
    split.
    { unfold Rollout.iteration_values.
      rewrite record_values_total by done. cbn.
      unfold Rollout.advantage_phase. rewrite Hgae. reflexivity. }
    split; [exact Hgae|]. split.
    { intros s Hs. apply denormalize_row_at. lia. }
    intros t s Ht Hs. destruct (Heq t s Ht Hs) as [Hadv Hret].
    split; [|split; done].
    rewrite (denormalize_table_at norm T N) by done.
    by rewrite critic_table_at.
  - destruct (gae_tables gamma gae_lambda T N rewards dones _ next_done _
                Hr Hd Hshape Hnd Hnext) as (adv & ret & Hgae & _).
    exists adv, ret. split.
    { unfold Rollout.iteration_values.
      rewrite record_values_total by done. cbn.
      unfold Rollout.advantage_phase. rewrite Hgae. reflexivity. }
    split; [exact Hgae|].
    intros t s Ht _. by apply critic_table_at.
  - exact (NormalizerFacts.reachable_coherent ewa norm Hreach).
Qed.

(** C2 on a two-step, one-slot iteration in the initial normalizer
    state. *)
Lemma values_denormalized_before_gae_witness :
  let norm := Normalizer.mkState 0 0 0 0 Normalizer.eps_var in
  let critic := fun t : nat => [INR t] in
  (exists raw advantages returns : Table,
     Rollout.iteration_values true norm 0.99 0.95 2 1
       critic [3] [[1]; [2]] [[0]; [0]] [[7]; [7]] [1]
     = Some (raw, advantages, returns)
     /\ GAE.gae 0.99 0.95 2 1 [[1]; [2]] [[0]; [0]] raw [1]
          (Normalizer.denormalize_row norm [3])
        = Some (advantages, returns)
     /\ (forall s, (s < 1)%nat ->
           Normalizer.denormalize_row norm [3] !!! s
           = [3] !!! s * sqrt (Normalizer.var norm) + Normalizer.mean norm)
     /\ forall t s, (t < 2)%nat -> (s < 1)%nat ->
          at2 raw t s
          = critic t !!! s * sqrt (Normalizer.var norm) + Normalizer.mean norm
          /\ Spec.gae_equation 0.99 2 [[1]; [2]] [[0]; [0]] raw [1]
               (Normalizer.denormalize_row norm [3]) 0.95 advantages t s
          /\ at2 returns t s = at2 advantages t s + at2 raw t s)
  /\ (exists advantages returns : Table,
        Rollout.iteration_values false norm 0.99 0.95 2 1
          critic [3] [[1]; [2]] [[0]; [0]] [[7]; [7]] [1]
        = Some (critic <$> seq 0 2, advantages, returns)
        /\ GAE.gae 0.99 0.95 2 1 [[1]; [2]] [[0]; [0]] (critic <$> seq 0 2)
             [1] [3]
           = Some (advantages, returns)
        /\ forall t s, (t < 2)%nat -> (s < 1)%nat ->
             at2 (critic <$> seq 0 2) t s = critic t !!! s)
  /\ Normalizer.derive (Normalizer.running_mean norm)
       (Normalizer.running_mean_sq norm) (Normalizer.debiasing_term norm)
     = Some (Normalizer.mean norm, Normalizer.var norm).
Proof.
  intros norm critic.
  apply (values_denormalized_before_gae 0.999999);
    try reflexivity;
    try (split; [reflexivity | repeat constructor]).
  apply Normalizer.reach_init, NormalizerFacts.init_total.
Defined.

(** ** Value-loss clipping *)

Module ValueLossFacts.
Import ValueLoss.

Lemma clamp_abs e c : 0 <= c -> Rabs (clamp e (- c) c) <= Rabs e.
Proof.
  intros Hc. unfold clamp, Rmin, Rmax.
  repeat destruct (Rle_dec _ _); unfold Rabs; repeat destruct (Rcase_abs _); lra.
Qed.

Lemma huber_small e d : Rabs e <= d -> huber_loss e d = e ^ 2 / 2.
Proof.
  intros H. unfold huber_loss.
  rewrite bool_decide_eq_true_2 by done.
  rewrite bool_decide_eq_false_2 by (unfold Rgt; lra). cbn. lra.
Qed.

Lemma huber_large e d : Rabs e > d -> huber_loss e d = d * (Rabs e - d / 2).
Proof.
  intros H. unfold huber_loss.
  rewrite bool_decide_eq_false_2 by lra.
  rewrite bool_decide_eq_true_2 by done. cbn. lra.
Qed.

(** for a non-negative threshold the Huber loss grows with the
    absolute error *)
Lemma huber_monotone e1 e2 d :
  0 <= d -> Rabs e1 <= Rabs e2 -> huber_loss e1 d <= huber_loss e2 d.
Proof.
  intros Hd Hle.
  pose proof (Rabs_pos e1) as P1. pose proof (Rabs_pos e2) as P2.
  pose proof (pow2_abs e1) as S1. pose proof (pow2_abs e2) as S2.
  destruct (Rle_dec (Rabs e1) d) as [H1|H1], (Rle_dec (Rabs e2) d) as [H2|H2].
  - rewrite !huber_small by done. nra.
  - rewrite huber_small by done. rewrite huber_large by lra. nra.
  - lra.
  - rewrite !huber_large by lra. nra.
Qed.

Lemma square_monotone e1 e2 :
  Rabs e1 <= Rabs e2 -> 0.5 * e1 ^ 2 <= 0.5 * e2 ^ 2.
Proof.
  intros Hle.
  pose proof (Rabs_pos e1) as P1. pose proof (Rabs_pos e2) as P2.
  pose proof (pow2_abs e1) as S1. pose proof (pow2_abs e2) as S2. nra.
Qed.

Section Rows.

Variables (use_huber_loss : bool) (huber_delta clip_coef : R).

Let loss := elem_loss use_huber_loss huber_delta.
Let clip := fun x => clamp x (- clip_coef) clip_coef.

Lemma loss_of_error_elem err :
  loss_of_error use_huber_loss huber_delta err = loss <$> err.
Proof. unfold loss_of_error, loss, elem_loss. by destruct use_huber_loss. Qed.

Lemma loss_monotone e1 e2 :
  (use_huber_loss = true -> 0 <= huber_delta) ->
  Rabs e1 <= Rabs e2 -> loss e1 <= loss e2.
Proof.
  intros Hd Hle. unfold loss, elem_loss. destruct use_huber_loss.
  - apply huber_monotone; auto.
  - by apply square_monotone.
Qed.

(** the rows of lines 333-342, element by element *)
Lemma rows_unfold (newvalue target_values : Row) :
  v_loss_unclipped use_huber_loss huber_delta newvalue target_values
  = zip_with (fun x y => loss (x - y)) newvalue target_values
  /\ v_clipped clip_coef newvalue target_values
     = zip_with (fun x y => y + clip (x - y)) newvalue target_values
  /\ v_loss_clipped_error clip_coef newvalue target_values
     = zip_with (fun x y => y + clip (x - y) - y) newvalue target_values
  /\ v_loss_clipped use_huber_loss huber_delta clip_coef newvalue target_values
     = zip_with (fun x y => loss (y + clip (x - y) - y)) newvalue target_values.
Proof.
  unfold v_loss_unclipped, v_loss_clipped, v_loss_clipped_error, v_clipped,
    v_loss_unclipped_error.
  rewrite !loss_of_error_elem. unfold add, sub.
  revert target_values.
  induction newvalue as [|x xs IH]; intros [|y ys]; cbn; try done.
  destruct (IH ys) as (H1 & H2 & H3 & H4).
  by rewrite H4, H3, H2, H1.
Qed.

(** where one row is pointwise below another, their maximum is the
    larger row and no element of the smaller exceeds the larger *)
Lemma pointwise_max (f g : R -> R -> R) (xs ys : Row) :
  (forall x y, g x y <= f x y) ->
  zip_with Rmax (zip_with f xs ys) (zip_with g xs ys) = zip_with f xs ys
  /\ Tensor.sum (zip_with (fun c u => float (bool_decide (c > u)))
                   (zip_with g xs ys) (zip_with f xs ys)) = 0.
Proof.
  intros Hle. revert ys.
  induction xs as [|x xs IH]; intros [|y ys]; cbn; try done.
  destruct (IH ys) as [Hmax Hsum]. split.
  - rewrite Hmax. f_equal. apply Rmax_left, Hle.
  - unfold Tensor.sum in Hsum. rewrite Hsum.
    rewrite bool_decide_eq_false_2 by (specialize (Hle x y); lra).
    cbn. lra.
Qed.

End Rows.

End ValueLossFacts.

(** C10.  With value-loss clipping, at every element the clipped
    prediction is [target + clamp(newvalue - target, -clip_coef,
    clip_coef)] and the clipped error is that clamp, whatever the
    hyperparameters.  For a clip coefficient that is not negative and,
    with the Huber loss, a threshold that is not negative (the range of
    the two hyperparameters), the clipped loss is at most the unclipped
    loss at every element, the elementwise maximum is the unclipped
    loss, the logged value-clip fraction is zero and the value loss is
    the one computed without clipping. *)
Theorem value_clipping_never_binds :
  forall (use_huber_loss : bool) (huber_delta clip_coef : R)
         (newvalue target_values : Row),
    (forall i x y, newvalue !! i = Some x -> target_values !! i = Some y ->
       ValueLoss.v_clipped clip_coef newvalue target_values !! i
       = Some (y + ValueLoss.clamp (x - y) (- clip_coef) clip_coef)
       /\ ValueLoss.v_loss_clipped_error clip_coef newvalue target_values !! i
          = Some (ValueLoss.clamp (x - y) (- clip_coef) clip_coef))
    /\ (0 <= clip_coef -> (use_huber_loss = true -> 0 <= huber_delta) ->
        (forall i x y, newvalue !! i = Some x -> target_values !! i = Some y ->
           exists lc lu,
             ValueLoss.v_loss_clipped use_huber_loss huber_delta clip_coef
               newvalue target_values !! i = Some lc
             /\ ValueLoss.v_loss_unclipped use_huber_loss huber_delta
                  newvalue target_values !! i = Some lu
             /\ lc = ValueLoss.elem_loss use_huber_loss huber_delta
                       (ValueLoss.clamp (x - y) (- clip_coef) clip_coef)
             /\ lu = ValueLoss.elem_loss use_huber_loss huber_delta (x - y)
             /\ lc <= lu)
        /\ ValueLoss.v_loss_max use_huber_loss huber_delta clip_coef
             newvalue target_values
           = ValueLoss.v_loss_unclipped use_huber_loss huber_delta
               newvalue target_values
        /\ ValueLoss.valueclipfrac use_huber_loss huber_delta clip_coef
             newvalue target_values = 0
        /\ ValueLoss.v_loss use_huber_loss huber_delta clip_coef true
             newvalue target_values
           = ValueLoss.v_loss use_huber_loss huber_delta clip_coef false
               newvalue target_values).
Proof.
  intros use_huber_loss huber_delta clip_coef newvalue target_values.
  destruct (ValueLossFacts.rows_unfold use_huber_loss huber_delta clip_coef
              newvalue target_values) as (Hu & Hvc & He & Hcl).
  split.
  { intros i x y Hx Hy.
    rewrite Hvc, He, !lookup_zip_with, Hx, Hy; cbn.
    split; [done|]. f_equal; ring. }
  intros Hc Hd.
  assert (Hclip : forall x y,
            ValueLoss.elem_loss use_huber_loss huber_delta
              (y + ValueLoss.clamp (x - y) (- clip_coef) clip_coef - y)
            <= ValueLoss.elem_loss use_huber_loss huber_delta (x - y)).
  { intros x y. apply ValueLossFacts.loss_monotone; [done|].
    replace (y + ValueLoss.clamp (x - y) (- clip_coef) clip_coef - y)
      with (ValueLoss.clamp (x - y) (- clip_coef) clip_coef) by ring.
    by apply ValueLossFacts.clamp_abs. }
  destruct (ValueLossFacts.pointwise_max _ _ newvalue target_values Hclip)
    as [Hmax Hsum].
  assert (Hmax' : ValueLoss.v_loss_max use_huber_loss huber_delta clip_coef
                    newvalue target_values
                  = ValueLoss.v_loss_unclipped use_huber_loss huber_delta
                      newvalue target_values).
  { unfold ValueLoss.v_loss_max. rewrite Hu, Hcl. exact Hmax. }
  split; [|split; [exact Hmax'|split]].
  - intros i x y Hx Hy.
    rewrite Hcl, Hu, !lookup_zip_with, Hx, Hy; cbn.
    eexists _, _. split; [reflexivity|]. split; [reflexivity|].
    split; [f_equal; ring|]. split; [done|]. apply Hclip.
  - unfold ValueLoss.valueclipfrac, Tensor.mean. rewrite Hu, Hcl, Hsum.
    unfold Rdiv. ring.
  - unfold ValueLoss.v_loss. by rewrite Hmax'.
Qed.

(** C10 on a three-element minibatch, Huber threshold 10, clip 0.2. *)
Lemma value_clipping_never_binds_witness :
  let newvalue := [1; -3; 0.1] in
  let target_values := [0; 0; 0] in
  let clip_coef := 0.2 in
  (forall i x y, newvalue !! i = Some x -> target_values !! i = Some y ->
     ValueLoss.v_clipped clip_coef newvalue target_values !! i
     = Some (y + ValueLoss.clamp (x - y) (- clip_coef) clip_coef)
     /\ ValueLoss.v_loss_clipped_error clip_coef newvalue target_values !! i
        = Some (ValueLoss.clamp (x - y) (- clip_coef) clip_coef))
  /\ (forall i x y, newvalue !! i = Some x -> target_values !! i = Some y ->
        exists lc lu,
          ValueLoss.v_loss_clipped true 10 clip_coef newvalue target_values !! i
          = Some lc
          /\ ValueLoss.v_loss_unclipped true 10 newvalue target_values !! i
             = Some lu
          /\ lc = ValueLoss.elem_loss true 10
                    (ValueLoss.clamp (x - y) (- clip_coef) clip_coef)
          /\ lu = ValueLoss.elem_loss true 10 (x - y)
          /\ lc <= lu)
  /\ ValueLoss.v_loss_max true 10 clip_coef newvalue target_values
     = ValueLoss.v_loss_unclipped true 10 newvalue target_values
  /\ ValueLoss.valueclipfrac true 10 clip_coef newvalue target_values = 0
  /\ ValueLoss.v_loss true 10 clip_coef true newvalue target_values
     = ValueLoss.v_loss true 10 clip_coef false newvalue target_values.
Proof.
  intros newvalue target_values clip_coef.
  destruct (value_clipping_never_binds true 10 clip_coef
              newvalue target_values) as [Hclipped Hrange].
  split; [exact Hclipped|].
  apply Hrange; [unfold clip_coef; lra | intros _; lra].
Defined.

(** ** Episode accumulators *)

Module EpisodeFacts.
Import Episode.

Lemma zero_where_lookup (next_done : list bool) (arr : Row)
    (s : nat) (d : bool) (x : R) :
  next_done !! s = Some d -> arr !! s = Some x ->
  zero_where next_done arr !! s = Some (if d then 0 else x).
Proof.
  intros Hd Hx. unfold zero_where. by rewrite lookup_zip_with, Hd, Hx.
Qed.

Lemma add_lookup (a b : Row) (s : nat) (x y : R) :
  a !! s = Some x -> b !! s = Some y -> add a b !! s = Some (x + y).
Proof. intros Ha Hb. unfold add. by rewrite lookup_zip_with, Ha, Hb. Qed.

Lemma step_flush vec a reward next_done :
  np_any next_done = true ->
  step vec a reward next_done
  = (mkAcc (zero_where next_done (add (episode_rewards a) reward))
           (zero_where next_done (fmap (fun x => x + 1) (episode_lengths a))),
     Some (mkSummary
             (Tensor.mean (mul (add (episode_rewards a) reward)
                               (as_float next_done)))
             (Tensor.mean (mul (scale vec (add (episode_rewards a) reward))
                               (as_float next_done)))
             (Tensor.mean (mul (fmap (fun x => x + 1) (episode_lengths a))
                               (as_float next_done))))).
Proof. intros H. unfold step, end_step, begin_step; cbn. by rewrite H. Qed.

Lemma step_no_flush vec a reward next_done :
  np_any next_done = false ->
  step vec a reward next_done
  = (mkAcc (add (episode_rewards a) reward)
           (fmap (fun x => x + 1) (episode_lengths a)), None).
Proof. intros H. unfold step, end_step, begin_step; cbn. by rewrite H. Qed.

End EpisodeFacts.

Lemma mul_ones (x : Row) n : length x = n -> mul x (replicate n 1) = x.
Proof.
  unfold mul. revert n.
  induction x as [|a x IH]; intros [|n] Hn; cbn in *; try done.
  f_equal; [lra | apply IH; lia].
Qed.

Lemma as_float_all_flagged n :
  Episode.as_float (replicate n true) = replicate n 1.
Proof. unfold Episode.as_float. by rewrite fmap_replicate. Qed.

(** C9, as the script has it.  At a step where some slot's [next_done]
    is true the script flushes a summary.  When every slot is flagged,
    as with replicas that finish together, the flushed episodic-return
    summary is the mean over the flagged slots, weighted by the flag,
    of the accumulated rewards, the reward of this very step included,
    and the flushed length summary is the mean of the incremented
    lengths.  Whatever the flags, after the flush a flagged slot's
    reward and length accumulators are zero and an unflagged slot's are
    what they were before the flush (old reward plus this step's
    reward, old length plus one); every length was incremented by one
    before the step. *)
Theorem episode_flush_and_reset :
  forall (vec : R) (a : Episode.Acc) (reward : Row) (next_done : list bool)
         (N : nat),
    length (Episode.episode_rewards a) = N ->
    length (Episode.episode_lengths a) = N ->
    length reward = N -> length next_done = N ->
    Episode.np_any next_done = true ->
    exists (acc' : Episode.Acc) (summary : Episode.Summary),
      Episode.step vec a reward next_done = (acc', Some summary)
      /\ (next_done = replicate N true ->
          Episode.average_per_player_episodic_return summary
          = Spec.mean_over_flagged (add (Episode.episode_rewards a) reward)
              next_done
          /\ Episode.average_per_player_episodic_return summary
             = Tensor.mean (add (Episode.episode_rewards a) reward)
          /\ Episode.episodic_length summary
             = Tensor.mean (fmap (fun x => x + 1) (Episode.episode_lengths a)))
      /\ (forall s r l x,
            Episode.episode_rewards a !! s = Some r ->
            Episode.episode_lengths a !! s = Some l ->
            reward !! s = Some x ->
            Episode.episode_lengths (Episode.begin_step a) !! s = Some (l + 1)
            /\ (next_done !! s = Some true ->
                Episode.episode_rewards acc' !! s = Some 0
                /\ Episode.episode_lengths acc' !! s = Some 0)
            /\ (next_done !! s = Some false ->
                Episode.episode_rewards acc' !! s = Some (r + x)
                /\ Episode.episode_lengths acc' !! s = Some (l + 1))).
Proof.
  intros vec a reward next_done N Hr Hl Hx Hd Hany.
  rewrite (EpisodeFacts.step_flush vec a reward next_done Hany).
  eexists _, _. split; [reflexivity|]. cbn.
  split.
  - intros ->. rewrite as_float_all_flagged.
    assert (Hmean : Tensor.mean (mul (add (Episode.episode_rewards a) reward)
                                     (replicate N 1))
                    = Tensor.mean (add (Episode.episode_rewards a) reward))
      by (rewrite mul_ones; [done | rewrite add_length; lia]).
    split; [|split; [exact Hmean|]].
    + rewrite Hmean. unfold Spec.mean_over_flagged, Tensor.mean.
      rewrite as_float_all_flagged.
      rewrite mul_ones by (rewrite add_length; lia).
      rewrite ConstantFeed.sum_replicate, add_length, Hr, Hx, Nat.min_id.
      f_equal. ring.
    + rewrite mul_ones; [done | rewrite length_fmap; lia].
  - intros s r l x Hsr Hsl Hsx.
    assert (Hl1 : (fmap (fun x => x + 1) (Episode.episode_lengths a)) !! s
                  = Some (l + 1))
      by (by rewrite list_lookup_fmap, Hsl).
    split; [exact Hl1|]. split; intros Hf'.
    + split.
      * by rewrite (EpisodeFacts.zero_where_lookup _ _ s true (r + x) Hf'
                      (EpisodeFacts.add_lookup _ _ s r x Hsr Hsx)).
      * by rewrite (EpisodeFacts.zero_where_lookup _ _ s true (l + 1) Hf' Hl1).
    + split.
      * by rewrite (EpisodeFacts.zero_where_lookup _ _ s false (r + x) Hf'
                      (EpisodeFacts.add_lookup _ _ s r x Hsr Hsx)).
      * by rewrite (EpisodeFacts.zero_where_lookup _ _ s false (l + 1) Hf' Hl1).
Qed.

(** C9 on two slots that finish together. *)
Lemma episode_flush_and_reset_witness :
  let a := Episode.mkAcc [1; 4] [3; 3] in
  let reward := [1; 0] in
  let next_done := [true; true] in
  exists (acc' : Episode.Acc) (summary : Episode.Summary),
    Episode.step 2 a reward next_done = (acc', Some summary)
    /\ (next_done = replicate 2 true ->
        Episode.average_per_player_episodic_return summary
        = Spec.mean_over_flagged (add (Episode.episode_rewards a) reward)
            next_done
        /\ Episode.average_per_player_episodic_return summary
           = Tensor.mean (add (Episode.episode_rewards a) reward)
        /\ Episode.episodic_length summary
           = Tensor.mean (fmap (fun x => x + 1) (Episode.episode_lengths a)))
    /\ (forall s r l x,
          Episode.episode_rewards a !! s = Some r ->
          Episode.episode_lengths a !! s = Some l ->
          reward !! s = Some x ->
          Episode.episode_lengths (Episode.begin_step a) !! s = Some (l + 1)
          /\ (next_done !! s = Some true ->
              Episode.episode_rewards acc' !! s = Some 0
              /\ Episode.episode_lengths acc' !! s = Some 0)
          /\ (next_done !! s = Some false ->
              Episode.episode_rewards acc' !! s = Some (r + x)
              /\ Episode.episode_lengths acc' !! s = Some (l + 1))).
Proof.
  intros a reward next_done.
  apply episode_flush_and_reset; reflexivity.
Defined.

(** C9 as claimed fails when only some slots are flagged.  Two slots
    with accumulated rewards [1, 4], this step's rewards [1, 0], only
    the first slot done: the script logs [(2*1 + 4*0) / 2 = 1], while
    the mean over the flagged slots (weights the flags) is [2]. *)
Lemma episode_flush_divides_by_all_slots :
  exists (acc' : Episode.Acc) (summary : Episode.Summary),
    Episode.step 2 (Episode.mkAcc [1; 4] [3; 3]) [1; 0] [true; false]
    = (acc', Some summary)
    /\ Episode.average_per_player_episodic_return summary = 1
    /\ Spec.mean_over_flagged (add [1; 4] [1; 0]) [true; false] = 2
    /\ Episode.average_per_player_episodic_return summary
       <> Spec.mean_over_flagged (add [1; 4] [1; 0]) [true; false].
Proof.
  rewrite EpisodeFacts.step_flush by reflexivity.
  eexists _, _. split; [reflexivity|].
  assert (H1 : Tensor.mean (mul (add [1; 4] [1; 0])
                                (Episode.as_float [true; false])) = 1)
    by (unfold Tensor.mean; cbn; lra).
  assert (H2 : Spec.mean_over_flagged (add [1; 4] [1; 0]) [true; false] = 2)
    by (unfold Spec.mean_over_flagged; cbn; lra).
  cbn [Episode.average_per_player_episodic_return Episode.episode_rewards].
  rewrite H1, H2. repeat split; lra.
Qed.

(** ** The epoch loop *)

Lemma approx_kl_formula (logratio : Row) :
  Optimizer.approx_kl_of logratio
  = Tensor.mean ((fun l => (exp l - 1) - l) <$> logratio).
Proof.
  unfold Optimizer.approx_kl_of. f_equal. unfold sub.
  induction logratio as [|l ls IH]; cbn; [done|]. by rewrite IH.
Qed.

Lemma for_each_app {S A : Type} (xs ys : list A) (body : A -> S -> option S) st :
  Rollout.for_each (xs ++ ys) body st
  = Rollout.for_each xs body st ≫= Rollout.for_each ys body.
Proof.
  revert st. induction xs as [|x xs IH]; intros st; cbn; [done|].
  destruct (body x st) as [st'|]; cbn; [apply IH|done].
Qed.

Section EpochFacts.

Variable World : Type.
Variable shuffle : World -> list nat -> World * list nat.
Variable logratio : World -> list nat -> Row.
Variable learn : World -> list nat -> World.
Variables (batch_size minibatch_size : nat).
Hypothesis Hbatch : (0 < batch_size)%nat.
Hypothesis Hminibatch : (0 < minibatch_size)%nat.

Let LoopState := Optimizer.LoopState World.
Let minibatch := Optimizer.minibatch World logratio learn minibatch_size.
Let run_epoch :=
  Optimizer.run_epoch World shuffle logratio learn batch_size minibatch_size.
Let epoch_loop :=
  Optimizer.epoch_loop World shuffle logratio learn batch_size minibatch_size.
Let epoch_passes := Optimizer.epoch_passes batch_size minibatch_size.
Let visited := Optimizer.visited World.
Let approx_kl := Optimizer.approx_kl World.

(** every epoch has at least one minibatch *)
Lemma py_range_nonempty :
  exists starts last,
    Optimizer.py_range batch_size minibatch_size = Some (starts ++ [last]).
Proof.
  unfold Optimizer.py_range.
  destruct (Nat.eqb_spec minibatch_size 0) as [?|_]; [lia|].
  assert (Hpos : (0 < (batch_size + minibatch_size - 1) / minibatch_size)%nat)
    by (apply Nat.div_str_pos; lia).
  destruct ((batch_size + minibatch_size - 1) / minibatch_size)%nat
    as [|n] eqn:E; [lia|].
  exists ((fun i => (i * minibatch_size)%nat) <$> seq 0 n), (n * minibatch_size)%nat.
  by rewrite seq_S, fmap_app.
Qed.

(** the minibatch passes over a list of starts all run, one after the
    other *)
Lemma minibatches_run epoch starts :
  forall st : LoopState,
    exists st' : LoopState,
      Rollout.for_each starts (minibatch epoch) st = Some st'
      /\ visited st' = visited st ++ (pair epoch <$> starts)
      /\ (starts = [] -> approx_kl st' = approx_kl st).
Proof.
  induction starts as [|start starts IH]; intros st.
  - exists st. split; [done|]. split; [by rewrite app_nil_r|done].
  - cbn [Rollout.for_each]. unfold minibatch at 1, Optimizer.minibatch. cbn.
    match goal with |- context [Rollout.for_each _ _ ?s] =>
      destruct (IH s) as (st' & Hrun & Hvis & _) end.
    exists st'. split; [exact Hrun|]. split; [|done].
    rewrite Hvis. cbn. by rewrite <- app_assoc.
Qed.

(** One epoch: all of its minibatch passes run, whatever their KL
    values are, and the KL left in [approx_kl] is the one computed by
    the last pass. *)
Lemma run_epoch_total epoch (st : LoopState) :
  exists (starts : list nat) (last : nat) (st_mid st' : LoopState),
    Optimizer.py_range batch_size minibatch_size = Some (starts ++ [last])
    /\ Rollout.for_each starts (minibatch epoch)
         (Optimizer.mkLoopState World
            (shuffle (Optimizer.world World st) (Optimizer.b_inds World st)).1
            (shuffle (Optimizer.world World st) (Optimizer.b_inds World st)).2
            (approx_kl st) (visited st))
       = Some st_mid
    /\ run_epoch epoch st = Some st'
    /\ visited st' = visited st ++ epoch_passes epoch
    /\ approx_kl st'
       = Some (Optimizer.approx_kl_of
                 (logratio (Optimizer.world World st_mid)
                    (Optimizer.slice (Optimizer.b_inds World st_mid)
                       last (last + minibatch_size)))).
Proof.
  destruct py_range_nonempty as (starts & last & Hrange).
  exists starts, last.
  unfold run_epoch, Optimizer.run_epoch, epoch_passes, Optimizer.epoch_passes.
  rewrite Hrange.
  destruct (shuffle (Optimizer.world World st) (Optimizer.b_inds World st))
    as [w inds]; cbn.
  destruct (minibatches_run epoch starts
              (Optimizer.mkLoopState World w inds (approx_kl st) (visited st)))
    as (st_mid & Hmid & Hvis & _).
  exists st_mid. eexists. split; [done|]. split; [exact Hmid|].
  unfold minibatch, approx_kl, visited in *.
  rewrite for_each_app, Hmid. cbn.
  split; [reflexivity|]. cbn. split; [|reflexivity].
  rewrite Hvis. cbn.
  by rewrite fmap_app, app_assoc.
Qed.

Lemma run_epoch_kl epoch (st : LoopState) :
  exists (st' : LoopState) (kl : R),
    run_epoch epoch st = Some st' /\ approx_kl st' = Some kl
    /\ visited st' = visited st ++ epoch_passes epoch.
Proof.
  destruct (run_epoch_total epoch st)
    as (starts & last & st_mid & st' & _ & _ & Hrun & Hvis & Hkl).
  by exists st', (Optimizer.approx_kl_of
                   (logratio (Optimizer.world World st_mid)
                      (Optimizer.slice (Optimizer.b_inds World st_mid)
                         last (last + minibatch_size)))).
Qed.

Lemma loop_cons target_kl epoch rest (st : LoopState) :
  epoch_loop target_kl (epoch :: rest) st
  = st' ← run_epoch epoch st;
    brk ← Optimizer.should_break World target_kl st';
    if brk : bool then Some st' else epoch_loop target_kl rest st'.
Proof. reflexivity. Qed.

Lemma should_break_bound k (st : LoopState) kl :
  approx_kl st = Some kl ->
  Optimizer.should_break World (Some k) st = Some (bool_decide (kl > k)).
Proof. intros H. unfold Optimizer.should_break. unfold approx_kl in H. by rewrite H. Qed.

(** with no threshold the loop is the plain sequence of epochs *)
Lemma loop_no_threshold epochs :
  forall st : LoopState,
    epoch_loop None epochs st = Rollout.for_each epochs run_epoch st.
Proof.
  induction epochs as [|e rest IH]; intros st; [done|].
  rewrite loop_cons. cbn [Rollout.for_each].
  destruct (run_epoch e st) as [st'|]; cbn; [apply IH|done].
Qed.

(** any number of whole epochs runs to completion, and [visited] gains
    exactly their minibatch passes *)
Lemma epochs_run epochs :
  forall st : LoopState,
    exists st' : LoopState,
      Rollout.for_each epochs run_epoch st = Some st'
      /\ visited st' = visited st ++ concat (epoch_passes <$> epochs).
Proof.
  induction epochs as [|e rest IH]; intros st.
  - exists st. split; [done|]. cbn. by rewrite app_nil_r.
  - destruct (run_epoch_kl e st) as (st1 & kl & Hrun & _ & Hvis).
    destruct (IH st1) as (st' & Hrest & Hvis').
    exists st'. cbn [Rollout.for_each]. rewrite Hrun. cbn.
    split; [exact Hrest|]. rewrite Hvis', Hvis. cbn. by rewrite app_assoc.
Qed.

(** whatever the threshold, the loop ends after a whole number of
    epochs: the check sits between epochs only *)
Lemma loop_whole_epochs target_kl epochs :
  forall st : LoopState,
    exists (m : nat) (st' : LoopState),
      (m <= length epochs)%nat
      /\ epoch_loop target_kl epochs st = Some st'
      /\ Rollout.for_each (take m epochs) run_epoch st = Some st'.
Proof.
  induction epochs as [|e rest IH]; intros st.
  - exists 0%nat, st. by cbn.
  - destruct (run_epoch_kl e st) as (st1 & kl & Hrun & Hkl & _).
    rewrite loop_cons, Hrun. cbn [mbind option_bind].
    destruct target_kl as [k|].
    + rewrite (should_break_bound k st1 kl Hkl). cbn [mbind option_bind].
      destruct (bool_decide (kl > k)).
      * exists 1%nat, st1. cbn. rewrite Hrun. split; [lia|done].
      * destruct (IH st1) as (m & st' & Hm & Hloop & Hpre).
        exists (S m), st'. cbn. rewrite Hrun. cbn.
        split; [lia|done].
    + cbn. destruct (IH st1) as (m & st' & Hm & Hloop & Hpre).
      exists (S m), st'. cbn. rewrite Hrun. cbn.
      split; [lia|done].
Qed.

(** the loop stops right after the first epoch whose last KL exceeds
    the threshold *)
Lemma loop_stops_at k epochs :
  forall (st : LoopState) j (st_j : LoopState) kl,
    (j < length epochs)%nat ->
    Rollout.for_each (take (S j) epochs) run_epoch st = Some st_j ->
    approx_kl st_j = Some kl -> kl > k ->
    (forall i (st_i : LoopState) kl_i,
        (i < j)%nat ->
        Rollout.for_each (take (S i) epochs) run_epoch st = Some st_i ->
        approx_kl st_i = Some kl_i -> ~ kl_i > k) ->
    epoch_loop (Some k) epochs st = Some st_j.
Proof.
  induction epochs as [|e rest IH]; intros st j st_j kl Hj Hrun Hkl Hgt Hbelow;
    [cbn in Hj; lia|].
  destruct (run_epoch_kl e st) as (st1 & kl1 & Hrun1 & Hkl1 & _).
  rewrite loop_cons, Hrun1. cbn [mbind option_bind].
  rewrite (should_break_bound k st1 kl1 Hkl1). cbn [mbind option_bind].
  cbn [take Rollout.for_each] in Hrun. rewrite Hrun1 in Hrun. cbn in Hrun.
  destruct j as [|j].
  - cbn in Hrun. injection Hrun as <-.
    assert (kl1 = kl) as -> by congruence.
    by rewrite bool_decide_eq_true_2.
  - assert (Hno : ~ kl1 > k).
    { apply (Hbelow 0%nat st1 kl1); [lia| |done].
      cbn. by rewrite Hrun1. }
    rewrite bool_decide_eq_false_2 by done.
    apply (IH st1 j st_j kl); [cbn in Hj; lia|done|done|done|].
    intros i st_i kl_i Hi Hrun_i Hkl_i.
    apply (Hbelow (S i) st_i kl_i); [lia| |done].
    cbn [take Rollout.for_each]. rewrite Hrun1. cbn. exact Hrun_i.
Qed.

(** if no epoch's last KL exceeds the threshold, all epochs run *)
Lemma loop_never_stops k epochs :
  forall st : LoopState,
    (forall i (st_i : LoopState) kl_i,
        (i < length epochs)%nat ->
        Rollout.for_each (take (S i) epochs) run_epoch st = Some st_i ->
        approx_kl st_i = Some kl_i -> ~ kl_i > k) ->
    epoch_loop (Some k) epochs st = Rollout.for_each epochs run_epoch st.
Proof.
  induction epochs as [|e rest IH]; intros st Hbelow; [done|].
  destruct (run_epoch_kl e st) as (st1 & kl1 & Hrun1 & Hkl1 & _).
  rewrite loop_cons, Hrun1. cbn [mbind option_bind Rollout.for_each].
  rewrite Hrun1. cbn [mbind option_bind].
  rewrite (should_break_bound k st1 kl1 Hkl1). cbn [mbind option_bind].
  assert (Hno : ~ kl1 > k).
  { apply (Hbelow 0%nat st1 kl1); [cbn; lia| |done].
    cbn. by rewrite Hrun1. }
  rewrite bool_decide_eq_false_2 by done.
  apply IH. intros i st_i kl_i Hi Hrun_i Hkl_i.
  apply (Hbelow (S i) st_i kl_i); [cbn; lia| |done].
  cbn [take Rollout.for_each]. rewrite Hrun1. cbn. exact Hrun_i.
Qed.

End EpochFacts.

(** C7.  In an iteration with [batch_size > 0] and [minibatch_size > 0]:
    - every epoch runs all of its minibatch passes, whatever their KL
      values, and leaves in [approx_kl] the value computed by its last
      pass, which is [mean((ratio - 1) - logratio)];
    - with no threshold, all [update_epochs] epochs run;
    - with a threshold [k], if epoch [j] is the first whose last KL
      exceeds [k], the loop ends in the state right after epoch [j]:
      epochs [0..j] have run and no further one;
    - with a threshold, the loop always ends after a whole number of
      epochs, never inside one. *)
Theorem kl_early_stop_between_epochs :
  forall (World : Type) (shuffle : World -> list nat -> World * list nat)
         (logratio : World -> list nat -> Row)
         (learn : World -> list nat -> World)
         (batch_size minibatch_size update_epochs : nat)
         (st : Optimizer.LoopState World),
    (0 < batch_size)%nat -> (0 < minibatch_size)%nat ->
    (forall epoch (st0 : Optimizer.LoopState World),
        exists (starts : list nat) (last : nat) (st_mid st1 : Optimizer.LoopState World),
          Optimizer.py_range batch_size minibatch_size = Some (starts ++ [last])
          /\ Rollout.for_each starts
               (Optimizer.minibatch World logratio learn minibatch_size epoch)
               (Optimizer.mkLoopState World
                  (shuffle (Optimizer.world World st0)
                     (Optimizer.b_inds World st0)).1
                  (shuffle (Optimizer.world World st0)
                     (Optimizer.b_inds World st0)).2
                  (Optimizer.approx_kl World st0) (Optimizer.visited World st0))
             = Some st_mid
          /\ Optimizer.run_epoch World shuffle logratio learn
               batch_size minibatch_size epoch st0 = Some st1
          /\ Optimizer.visited World st1
             = Optimizer.visited World st0
               ++ Optimizer.epoch_passes batch_size minibatch_size epoch
          /\ Optimizer.approx_kl World st1
             = Some (Tensor.mean
                       ((fun l => (exp l - 1) - l)
                          <$> logratio (Optimizer.world World st_mid)
                                (Optimizer.slice (Optimizer.b_inds World st_mid)
                                   last (last + minibatch_size)))))
    /\ (exists st' : Optimizer.LoopState World,
          Optimizer.optimize World shuffle logratio learn
            batch_size minibatch_size None update_epochs st = Some st'
          /\ Optimizer.complete_epochs World shuffle logratio learn
               batch_size minibatch_size update_epochs st = Some st'
          /\ Optimizer.visited World st'
             = Optimizer.visited World st
               ++ concat (Optimizer.epoch_passes batch_size minibatch_size
                            <$> seq 0 update_epochs))
    /\ (forall (k : R) (j : nat) (st_j : Optimizer.LoopState World) (kl : R),
          (j < update_epochs)%nat ->
          Optimizer.complete_epochs World shuffle logratio learn
            batch_size minibatch_size (S j) st = Some st_j ->
          Optimizer.approx_kl World st_j = Some kl -> kl > k ->
          (forall i (st_i : Optimizer.LoopState World) kl_i,
              (i < j)%nat ->
              Optimizer.complete_epochs World shuffle logratio learn
                batch_size minibatch_size (S i) st = Some st_i ->
              Optimizer.approx_kl World st_i = Some kl_i -> ~ kl_i > k) ->
          Optimizer.optimize World shuffle logratio learn
            batch_size minibatch_size (Some k) update_epochs st = Some st_j
          /\ Optimizer.visited World st_j
             = Optimizer.visited World st
               ++ concat (Optimizer.epoch_passes batch_size minibatch_size
                            <$> seq 0 (S j)))
    /\ (forall k : R,
          exists (m : nat) (st' : Optimizer.LoopState World),
            (m <= update_epochs)%nat
            /\ Optimizer.optimize World shuffle logratio learn
                 batch_size minibatch_size (Some k) update_epochs st = Some st'
            /\ Optimizer.complete_epochs World shuffle logratio learn
                 batch_size minibatch_size m st = Some st'
            /\ Optimizer.visited World st'
               = Optimizer.visited World st
                 ++ concat (Optimizer.epoch_passes batch_size minibatch_size
                              <$> seq 0 m)).
Proof.
  intros World shuffle logratio learn batch_size minibatch_size update_epochs
    st Hb Hm.
  pose proof (epochs_run World shuffle logratio learn batch_size
                minibatch_size Hb Hm) as Hrun.
  split; [|split; [|split]].
  - intros epoch st0.
    destruct (run_epoch_total World shuffle logratio learn batch_size
                minibatch_size Hb Hm epoch st0)
      as (starts & last & st_mid & st1 & H1 & H2 & H3 & H4 & H5).
    exists starts, last, st_mid, st1.
    rewrite <- approx_kl_formula. done.
  - destruct (Hrun (seq 0 update_epochs) st) as (st' & Hall & Hvis).
    exists st'. unfold Optimizer.optimize, Optimizer.complete_epochs.
    rewrite loop_no_threshold by done. done.
  - intros k j st_j kl Hj Hcomplete Hkl Hgt Hbelow.
    unfold Optimizer.optimize, Optimizer.complete_epochs in *.
    split.
    + apply (loop_stops_at World shuffle logratio learn batch_size
               minibatch_size Hb Hm k (seq 0 update_epochs) st j st_j kl);
        try done.
      * rewrite length_seq. lia.
      * rewrite take_seq. by replace (S j `min` update_epochs)%nat with (S j) by lia.
      * intros i st_i kl_i Hi Hrun_i. apply (Hbelow i st_i kl_i Hi).
        rewrite take_seq in Hrun_i.
        by replace (S i `min` update_epochs)%nat with (S i) in Hrun_i by lia.
    + destruct (Hrun (seq 0 (S j)) st) as (st' & Hall & Hvis).
      rewrite Hcomplete in Hall. by injection Hall as <-.
  - intros k.
    destruct (loop_whole_epochs World shuffle logratio learn batch_size
                minibatch_size Hb Hm (Some k) (seq 0 update_epochs) st)
      as (m & st' & Hle & Hloop & Hpre).
    rewrite length_seq in Hle. rewrite take_seq in Hpre.
    replace (m `min` update_epochs)%nat with m in Hpre by lia.
    exists m, st'. unfold Optimizer.optimize, Optimizer.complete_epochs.
    split; [done|]. split; [done|]. split; [done|].
    destruct (Hrun (seq 0 m) st) as (st'' & Hall & Hvis).
    rewrite Hpre in Hall. by injection Hall as <-.
Qed.

(** C7 on a batch of four in minibatches of two, three epochs, a policy
    that did not move (log-ratio zero). *)
Lemma kl_early_stop_between_epochs_witness :
  let World := unit in
  let shuffle := fun (w : unit) (l : list nat) => (w, l) in
  let logratio := fun (_ : unit) (_ : list nat) => [0] in
  let learn := fun (w : unit) (_ : list nat) => w in
  let batch_size := 4%nat in
  let minibatch_size := 2%nat in
  let update_epochs := 3%nat in
  let st := Optimizer.mkLoopState unit tt [0; 1; 2; 3]%nat None [] in
  (forall epoch (st0 : Optimizer.LoopState World),
      exists (starts : list nat) (last : nat) (st_mid st1 : Optimizer.LoopState World),
        Optimizer.py_range batch_size minibatch_size = Some (starts ++ [last])
        /\ Rollout.for_each starts
             (Optimizer.minibatch World logratio learn minibatch_size epoch)
             (Optimizer.mkLoopState World
                (shuffle (Optimizer.world World st0)
                   (Optimizer.b_inds World st0)).1
                (shuffle (Optimizer.world World st0)
                   (Optimizer.b_inds World st0)).2
                (Optimizer.approx_kl World st0) (Optimizer.visited World st0))
           = Some st_mid
        /\ Optimizer.run_epoch World shuffle logratio learn
             batch_size minibatch_size epoch st0 = Some st1
        /\ Optimizer.visited World st1
           = Optimizer.visited World st0
             ++ Optimizer.epoch_passes batch_size minibatch_size epoch
        /\ Optimizer.approx_kl World st1
           = Some (Tensor.mean
                     ((fun l => (exp l - 1) - l)
                        <$> logratio (Optimizer.world World st_mid)
                              (Optimizer.slice (Optimizer.b_inds World st_mid)
                                 last (last + minibatch_size)))))
  /\ (exists st' : Optimizer.LoopState World,
        Optimizer.optimize World shuffle logratio learn
          batch_size minibatch_size None update_epochs st = Some st'
        /\ Optimizer.complete_epochs World shuffle logratio learn
             batch_size minibatch_size update_epochs st = Some st'
        /\ Optimizer.visited World st'
           = Optimizer.visited World st
             ++ concat (Optimizer.epoch_passes batch_size minibatch_size
                          <$> seq 0 update_epochs))
  /\ (forall (k : R) (j : nat) (st_j : Optimizer.LoopState World) (kl : R),
        (j < update_epochs)%nat ->
        Optimizer.complete_epochs World shuffle logratio learn
          batch_size minibatch_size (S j) st = Some st_j ->
        Optimizer.approx_kl World st_j = Some kl -> kl > k ->
        (forall i (st_i : Optimizer.LoopState World) kl_i,
            (i < j)%nat ->
            Optimizer.complete_epochs World shuffle logratio learn
              batch_size minibatch_size (S i) st = Some st_i ->
            Optimizer.approx_kl World st_i = Some kl_i -> ~ kl_i > k) ->
        Optimizer.optimize World shuffle logratio learn
          batch_size minibatch_size (Some k) update_epochs st = Some st_j
        /\ Optimizer.visited World st_j
           = Optimizer.visited World st
             ++ concat (Optimizer.epoch_passes batch_size minibatch_size
                          <$> seq 0 (S j)))
  /\ (forall k : R,
        exists (m : nat) (st' : Optimizer.LoopState World),
          (m <= update_epochs)%nat
          /\ Optimizer.optimize World shuffle logratio learn
               batch_size minibatch_size (Some k) update_epochs st = Some st'
          /\ Optimizer.complete_epochs World shuffle logratio learn
               batch_size minibatch_size m st = Some st'
          /\ Optimizer.visited World st'
             = Optimizer.visited World st
               ++ concat (Optimizer.epoch_passes batch_size minibatch_size
                            <$> seq 0 m)).
Proof.
  intros World shuffle logratio learn batch_size minibatch_size update_epochs st.
  apply kl_early_stop_between_epochs; unfold batch_size, minibatch_size; lia.
Defined.

(** The loop on the same run with three thresholds: [-1] (exceeded at
    once, one epoch runs), [1] (never exceeded, all three run) and no
    threshold (all three run). *)
Example early_stop_example :
  let shuffle := fun (w : unit) (l : list nat) => (w, l) in
  let logratio := fun (_ : unit) (_ : list nat) => [0] in
  let learn := fun (w : unit) (_ : list nat) => w in
  let st := Optimizer.mkLoopState unit tt [0; 1; 2; 3]%nat None [] in
  Optimizer.visited unit
    <$> Optimizer.optimize unit shuffle logratio learn 4 2 (Some (-1)) 3 st
  = Some [(0, 0); (0, 2)]%nat
  /\ Optimizer.visited unit
       <$> Optimizer.optimize unit shuffle logratio learn 4 2 (Some 1) 3 st
     = Some [(0, 0); (0, 2); (1, 0); (1, 2); (2, 0); (2, 2)]%nat
  /\ Optimizer.visited unit
       <$> Optimizer.optimize unit shuffle logratio learn 4 2 None 3 st
     = Some [(0, 0); (0, 2); (1, 0); (1, 2); (2, 0); (2, 2)]%nat.
Proof.
  intros shuffle logratio learn st.
  assert (Hkl : Optimizer.approx_kl_of [0] = 0).
  { unfold Optimizer.approx_kl_of, Tensor.mean. cbn. rewrite exp_0. lra. }
  split; [|split].
  - cbn -[Optimizer.approx_kl_of]. unfold logratio. rewrite Hkl.
    rewrite bool_decide_eq_true_2 by lra. reflexivity.
  - cbn -[Optimizer.approx_kl_of]. unfold logratio. rewrite Hkl.
    rewrite bool_decide_eq_false_2 by lra. reflexivity.
  - reflexivity.
Qed.

(** * Further properties of the script *)

(** ** More on the GAE backward pass *)

Lemma zeros2_at T N t s :
  (t < T)%nat -> (s < N)%nat -> at2 (zeros2 T N) t s = 0.
Proof.
  intros Ht Hs. unfold at2, zeros2.
  rewrite lookup_total_replicate_2 by done. by apply zeros_at.
Qed.

(** X1.  A rollout with zero rewards, zero value estimates and a zero
    bootstrap value has zero advantages and zero returns at every step
    and slot, whatever the done flags, the discount and lambda. *)
Theorem gae_zero_rollout :
  forall (gamma gae_lambda : R) (T N : nat) (dones : Table) (next_done : Row),
    shaped T N dones -> length next_done = N ->
    exists advantages returns : Table,
      GAE.gae gamma gae_lambda T N (zeros2 T N) dones (zeros2 T N)
        next_done (zeros N)
      = Some (advantages, returns)
      /\ forall t s, (t < T)%nat -> (s < N)%nat ->
           at2 advantages t s = 0 /\ at2 returns t s = 0.
Proof.
  intros gamma gae_lambda T N dones next_done Hd Hnd.
  destruct (gae_tables gamma gae_lambda T N (zeros2 T N) dones (zeros2 T N)
              next_done (zeros N) (shaped_zeros2 T N) Hd (shaped_zeros2 T N)
              Hnd (zeros_length N))
    as (adv & ret & Hgae & _ & _ & Heq).
  exists adv, ret. split; [exact Hgae|].
  assert (Hadv : forall k t s, (T - t = k)%nat -> (t < T)%nat -> (s < N)%nat ->
                   at2 adv t s = 0).
  { induction k as [|k IH]; intros t s Hk Ht Hs; [lia|].
    destruct (Heq t s Ht Hs) as [Hrec _].
    unfold Spec.gae_equation, Spec.delta, Spec.nextvalue, Spec.carry in Hrec.
    rewrite Hrec, !zeros2_at by done.
    destruct (Nat.eqb_spec t (T - 1)) as [E|E].
    - rewrite zeros_at by done. ring.
    - rewrite zeros2_at by (done || lia).
      rewrite (IH (t + 1)%nat s) by (done || lia). ring. }
  intros t s Ht Hs. split; [by apply (Hadv (T - t)%nat)|].
  destruct (Heq t s Ht Hs) as [_ ->].
  rewrite (Hadv (T - t)%nat), zeros2_at by done. ring.
Qed.

(** X1 on two steps and one slot. *)
Lemma gae_zero_rollout_witness :
  exists advantages returns : Table,
    GAE.gae 0.99 0.95 2 1 (zeros2 2 1) [[0]; [1]] (zeros2 2 1) [0] (zeros 1)
    = Some (advantages, returns)
    /\ forall t s, (t < 2)%nat -> (s < 1)%nat ->
         at2 advantages t s = 0 /\ at2 returns t s = 0.
Proof.
  apply gae_zero_rollout;
    [split; [reflexivity | repeat constructor] | reflexivity].
Defined.

(** X2.  An episode boundary cuts the estimate: where the step that
    follows [(t, s)] starts a new episode (its done flag, or the
    bootstrap done flag at the last step, is 1), the advantage is
    [reward - value] and the return is the reward alone, whatever the
    later rewards, values and the bootstrap value are. *)
Theorem gae_done_cuts_bootstrap :
  forall (gamma gae_lambda : R) (T N : nat)
         (rewards dones values : Table) (next_done next_value : Row) (t s : nat),
    shaped T N rewards -> shaped T N dones -> shaped T N values ->
    length next_done = N -> length next_value = N ->
    (t < T)%nat -> (s < N)%nat ->
    Spec.nextdone T dones next_done t s = 1 ->
    exists advantages returns : Table,
      GAE.gae gamma gae_lambda T N rewards dones values next_done next_value
      = Some (advantages, returns)
      /\ at2 advantages t s = at2 rewards t s - at2 values t s
      /\ at2 returns t s = at2 rewards t s.
Proof.
  intros gamma gae_lambda T N rewards dones values next_done next_value t s
    Hr Hd Hv Hnd Hnv Ht Hs Hdone.
  destruct (gae_tables gamma gae_lambda T N rewards dones values
              next_done next_value Hr Hd Hv Hnd Hnv)
    as (adv & ret & Hgae & _ & _ & Heq).
  exists adv, ret. split; [exact Hgae|].
  destruct (Heq t s Ht Hs) as [Hadv Hret].
  unfold Spec.gae_equation, Spec.delta in Hadv.
  rewrite Hdone in Hadv. rewrite Hret, Hadv. split; ring.
Qed.

(** X2 on a three-step buffer whose second step starts a new episode. *)
Lemma gae_done_cuts_bootstrap_witness :
  exists advantages returns : Table,
    GAE.gae 0.5 0.9 3 1 [[1]; [2]; [4]] [[0]; [1]; [0]] [[3]; [5]; [7]] [0] [8]
    = Some (advantages, returns)
    /\ at2 advantages 0 0 = at2 [[1]; [2]; [4]] 0 0 - at2 [[3]; [5]; [7]] 0 0
    /\ at2 returns 0 0 = at2 [[1]; [2]; [4]] 0 0.
Proof.
  apply gae_done_cuts_bootstrap;
    try reflexivity; try lia; (split; [reflexivity | repeat constructor]).
Defined.

(** X3.  A buffer with fewer reward rows or fewer value rows than
    [num_steps] makes the backward pass stop with an index error in its
    first pass ([t = num_steps - 1]): no advantage is produced. *)
Theorem gae_short_buffer_index_error :
  forall (gamma gae_lambda : R) (num_steps num_envs : nat)
         (rewards dones values : Table) (next_done next_value : Row),
    (0 < num_steps)%nat ->
    (length rewards < num_steps \/ length values < num_steps)%nat ->
    GAE.gae gamma gae_lambda num_steps num_envs rewards dones values
      next_done next_value = None.
Proof.
  intros gamma gae_lambda num_steps num_envs rewards dones values
    next_done next_value Hpos Hshort. unfold GAE.gae.
  destruct num_steps as [|t]; [lia|].
  cbn [GAE.loop]. unfold GAE.body.
  replace (S t - 1)%nat with t by lia. rewrite Nat.eqb_refl. cbn.
  unfold get.
  destruct (rewards !! t) as [r|] eqn:Er; cbn; [|done].
  destruct (values !! t) as [v|] eqn:Ev; cbn; [|done].
  apply lookup_lt_Some in Er, Ev. lia.
Qed.

(** X3 with two steps asked of a one-row buffer. *)
Lemma gae_short_buffer_index_error_witness :
  GAE.gae 0.99 0.95 2 1 [[1]] [[0]] [[0.5]] [0] [0] = None.
Proof. apply gae_short_buffer_index_error; [lia | left; cbn; lia]. Defined.

(** ** The Huber loss *)

(** X4.  For a threshold [d >= 0] the Huber loss is the halved square
    up to [|e| = d] and linear beyond, the two pieces meet at the
    threshold (both are [d^2 / 2] there); it is even, never negative,
    at most the halved square and at least the linear piece. *)
Theorem huber_loss_shape :
  forall e d : R,
    0 <= d ->
    (Rabs e <= d -> ValueLoss.huber_loss e d = e ^ 2 / 2)
    /\ (Rabs e > d -> ValueLoss.huber_loss e d = d * (Rabs e - d / 2))
    /\ (Rabs e = d -> e ^ 2 / 2 = d * (Rabs e - d / 2))
    /\ ValueLoss.huber_loss (- e) d = ValueLoss.huber_loss e d
    /\ 0 <= ValueLoss.huber_loss e d <= e ^ 2 / 2
    /\ d * (Rabs e - d / 2) <= ValueLoss.huber_loss e d.
Proof.
  intros e d Hd.
  pose proof (Rabs_pos e) as Hp. pose proof (pow2_abs e) as Hsq.
  split; [apply ValueLossFacts.huber_small|].
  split; [apply ValueLossFacts.huber_large|].
  split; [intros E; rewrite <- Hsq, E; cbn; lra|].
  split.
  { destruct (Rle_dec (Rabs e) d) as [H|H].
    - rewrite !ValueLossFacts.huber_small by (by rewrite ?Rabs_Ropp).
      cbn. lra.
    - rewrite !ValueLossFacts.huber_large by (rewrite ?Rabs_Ropp; lra).
      by rewrite Rabs_Ropp. }
  destruct (Rle_dec (Rabs e) d) as [H|H].
  - rewrite ValueLossFacts.huber_small by done. rewrite <- Hsq. nra.
  - rewrite ValueLossFacts.huber_large by lra. rewrite <- Hsq. nra.
Qed.

(** X4 with the default threshold [10] at the error [12]. *)
Lemma huber_loss_shape_witness :
  (Rabs 12 <= 10 -> ValueLoss.huber_loss 12 10 = 12 ^ 2 / 2)
  /\ (Rabs 12 > 10 -> ValueLoss.huber_loss 12 10 = 10 * (Rabs 12 - 10 / 2))
  /\ (Rabs 12 = 10 -> 12 ^ 2 / 2 = 10 * (Rabs 12 - 10 / 2))
  /\ ValueLoss.huber_loss (- 12) 10 = ValueLoss.huber_loss 12 10
  /\ 0 <= ValueLoss.huber_loss 12 10 <= 12 ^ 2 / 2
  /\ 10 * (Rabs 12 - 10 / 2) <= ValueLoss.huber_loss 12 10.
Proof. apply huber_loss_shape. lra. Defined.

(** ** The clipped policy loss *)

Module PolicyFacts.
Import Policy.

Lemma clamp_inside r lo hi :
  lo <= r <= hi -> ValueLoss.clamp r lo hi = r.
Proof.
  intros [H1 H2]. unfold ValueLoss.clamp.
  rewrite Rmax_left by done. by rewrite Rmin_left.
Qed.

Lemma clamp_above r lo hi : lo <= hi -> hi <= r -> ValueLoss.clamp r lo hi = hi.
Proof.
  intros H1 H2. unfold ValueLoss.clamp.
  rewrite Rmax_left by lra. by rewrite Rmin_right.
Qed.

Lemma clamp_below r lo hi : lo <= hi -> r <= lo -> ValueLoss.clamp r lo hi = lo.
Proof.
  intros H1 H2. unfold ValueLoss.clamp.
  rewrite Rmax_right by done. by rewrite Rmin_left.
Qed.

Lemma clamp_bounds r lo hi : lo <= hi -> lo <= ValueLoss.clamp r lo hi <= hi.
Proof.
  intros H. unfold ValueLoss.clamp, Rmin, Rmax.
  repeat destruct (Rle_dec _ _); lra.
Qed.

(** the rows of lines 313-315, element by element *)
Lemma pg_loss_rows_elem clip_coef (mb_advantages ratio : Row) :
  pg_loss_rows clip_coef mb_advantages ratio
  = zip_with
      (fun a r =>
         Rmax (- a * r)
              (- a * ValueLoss.clamp r (1 - clip_coef) (1 + clip_coef)))
      mb_advantages ratio.
Proof.
  unfold pg_loss_rows, pg_loss1, pg_loss2, mul. revert ratio.
  induction mb_advantages as [|a l IH]; intros [|r rs]; cbn; try done.
  by rewrite IH.
Qed.

End PolicyFacts.

(** X5.  With a clip coefficient [c >= 0], the policy loss of an element
    with advantage [a] and ratio [r] is [max(-a*r, -a*clamp(r, 1-c, 1+c))],
    which is minus the smaller of the two surrogate objectives.  It is
    never below the unclipped loss [-a*r]; it is the unclipped loss
    while [1-c <= r <= 1+c] (so the two agree at [r = 1-c] and at
    [r = 1+c]) and whenever the ratio has moved against the advantage;
    it is frozen at [-a*(1+c)] for [a >= 0, r >= 1+c] and at
    [-a*(1-c)] for [a <= 0, r <= 1-c]. *)
Theorem policy_loss_clipping_cases :
  forall (clip_coef : R) (mb_advantages ratio : Row) (i : nat) (a r : R),
    0 <= clip_coef ->
    mb_advantages !! i = Some a -> ratio !! i = Some r ->
    exists l,
      Policy.pg_loss_rows clip_coef mb_advantages ratio !! i = Some l
      /\ l = Rmax (- a * r)
                  (- a * ValueLoss.clamp r (1 - clip_coef) (1 + clip_coef))
      /\ l = - Rmin (a * r)
                    (a * ValueLoss.clamp r (1 - clip_coef) (1 + clip_coef))
      /\ - a * r <= l
      /\ (1 - clip_coef <= r <= 1 + clip_coef -> l = - a * r)
      /\ (0 <= a -> 1 + clip_coef <= r -> l = - a * (1 + clip_coef))
      /\ (a <= 0 -> r <= 1 - clip_coef -> l = - a * (1 - clip_coef))
      /\ (0 <= a -> r <= 1 - clip_coef -> l = - a * r)
      /\ (a <= 0 -> 1 + clip_coef <= r -> l = - a * r).
Proof.
  intros c advs ratio i a r Hc Ha Hr.
  eexists. split.
  { rewrite PolicyFacts.pg_loss_rows_elem, lookup_zip_with, Ha, Hr.
    reflexivity. }
  split; [reflexivity|].
  set (k := ValueLoss.clamp r (1 - c) (1 + c)).
  assert (Hk : 1 - c <= k <= 1 + c) by (apply PolicyFacts.clamp_bounds; lra).
  split.
  { unfold Rmax, Rmin. repeat destruct (Rle_dec _ _); lra. }
  split; [apply Rmax_l|].
  split.
  { intros Hin. unfold k. rewrite PolicyFacts.clamp_inside by done.
    by apply Rmax_left; lra. }
  split.
  { intros Hpos Hhi. unfold k. rewrite PolicyFacts.clamp_above by lra.
    apply Rmax_right. nra. }
  split.
  { intros Hneg Hlo. unfold k. rewrite PolicyFacts.clamp_below by lra.
    apply Rmax_right. nra. }
  split.
  { intros Hpos Hlo. unfold k. rewrite PolicyFacts.clamp_below by lra.
    apply Rmax_left. nra. }
  intros Hneg Hhi. unfold k. rewrite PolicyFacts.clamp_above by lra.
  apply Rmax_left. nra.
Qed.

(** X5 with clip [0.2] on a positive advantage whose ratio left the
    clip range upwards. *)
Lemma policy_loss_clipping_cases_witness :
  let clip_coef := 0.2 in
  exists l,
    Policy.pg_loss_rows clip_coef [2; -1] [1.5; 1] !! 0%nat = Some l
    /\ l = Rmax (- 2 * 1.5)
                (- 2 * ValueLoss.clamp 1.5 (1 - clip_coef) (1 + clip_coef))
    /\ l = - Rmin (2 * 1.5)
                  (2 * ValueLoss.clamp 1.5 (1 - clip_coef) (1 + clip_coef))
    /\ - 2 * 1.5 <= l
    /\ (1 - clip_coef <= 1.5 <= 1 + clip_coef -> l = - 2 * 1.5)
    /\ (0 <= 2 -> 1 + clip_coef <= 1.5 -> l = - 2 * (1 + clip_coef))
    /\ (2 <= 0 -> 1.5 <= 1 - clip_coef -> l = - 2 * (1 - clip_coef))
    /\ (0 <= 2 -> 1.5 <= 1 - clip_coef -> l = - 2 * 1.5)
    /\ (2 <= 0 -> 1 + clip_coef <= 1.5 -> l = - 2 * 1.5).
Proof.
  intros clip_coef.
  apply (policy_loss_clipping_cases clip_coef [2; -1] [1.5; 1] 0 2 1.5);
    [unfold clip_coef; lra | reflexivity | reflexivity].
Defined.

(** ** Sums and means *)

Module SumFacts.

Lemma sum_cons x (l : Row) : Tensor.sum (x :: l) = x + Tensor.sum l.
Proof. reflexivity. Qed.

Lemma sum_bounds lo hi (l : Row) :
  Forall (fun x => lo <= x <= hi) l ->
  INR (length l) * lo <= Tensor.sum l <= INR (length l) * hi.
Proof.
  induction 1 as [|x l Hx _ IH].
  - cbn. lra.
  - rewrite sum_cons. cbn [length]. rewrite S_INR. lra.
Qed.

Lemma sum_nonneg (l : Row) : Forall (fun x => 0 <= x) l -> 0 <= Tensor.sum l.
Proof.
  induction 1 as [|x l Hx _ IH]; [cbn; lra|]. rewrite sum_cons. lra.
Qed.

Lemma sum_zero_all (l : Row) :
  Forall (fun x => 0 <= x) l -> Tensor.sum l = 0 -> Forall (fun x => x = 0) l.
Proof.
  induction 1 as [|x l Hx Hl IH]; [constructor|].
  rewrite sum_cons. intros Hsum. pose proof (sum_nonneg l Hl).
  constructor; [lra|apply IH; lra].
Qed.

Lemma sum_all_zero (l : Row) :
  Forall (fun x => x = 0) l -> Tensor.sum l = 0.
Proof.
  induction 1 as [|x l Hx _ IH]; [done|]. rewrite sum_cons. lra.
Qed.

(** the sum of an affine image *)
Lemma sum_affine k c (l : Row) :
  Tensor.sum ((fun x => k * x + c) <$> l)
  = k * Tensor.sum l + INR (length l) * c.
Proof.
  induction l as [|x l IH]; [cbn; ring|].
  cbn [fmap list_fmap length]. rewrite !sum_cons, S_INR.
  change (list_fmap R R (fun x => k * x + c) l)
    with ((fun x => k * x + c) <$> l).
  rewrite IH. ring.
Qed.

(** the sum of squared deviations from any centre *)
Lemma sum_sq_dev m (l : Row) :
  Tensor.sum ((fun x => (x - m) ^ 2) <$> l)
  = Tensor.sum ((fun x => x ^ 2) <$> l) - 2 * m * Tensor.sum l
    + INR (length l) * m ^ 2.
Proof.
  induction l as [|x l IH]; [cbn; ring|].
  cbn [fmap list_fmap length]. rewrite !sum_cons, S_INR.
  change (list_fmap R R (fun x => (x - m) ^ 2) l)
    with ((fun x => (x - m) ^ 2) <$> l).
  change (list_fmap R R (fun x => x ^ 2) l) with ((fun x => x ^ 2) <$> l).
  rewrite IH. ring.
Qed.

Lemma length_pos_INR (l : Row) : l <> [] -> 0 < INR (length l).
Proof. intros H. apply lt_0_INR. destruct l; [done|cbn; lia]. Qed.

Lemma mean_bounds lo hi (l : Row) :
  l <> [] -> Forall (fun x => lo <= x <= hi) l -> lo <= Tensor.mean l <= hi.
Proof.
  intros Hl Hall. pose proof (length_pos_INR l Hl) as Hn.
  pose proof (sum_bounds lo hi l Hall) as [H1 H2].
  unfold Tensor.mean. split.
  - apply Rle_trans with (INR (length l) * lo / INR (length l)).
    + right. field. lra.
    + apply Rmult_le_compat_r; [left; by apply Rinv_0_lt_compat|done].
  - apply Rle_trans with (INR (length l) * hi / INR (length l)).
    + apply Rmult_le_compat_r; [left; by apply Rinv_0_lt_compat|done].
    + right. field. lra.
Qed.

Lemma mean_zero_iff (l : Row) :
  l <> [] -> (Tensor.mean l = 0 <-> Tensor.sum l = 0).
Proof.
  intros Hl. pose proof (length_pos_INR l Hl) as Hn. unfold Tensor.mean.
  split; intros H.
  - apply Rmult_eq_compat_r with (r := INR (length l)) in H.
    unfold Rdiv in H. rewrite Rmult_assoc, Rinv_l, Rmult_1_r, Rmult_0_l in H by lra.
    done.
  - rewrite H. unfold Rdiv. ring.
Qed.

End SumFacts.

(** ** The KL estimate and the clip fraction *)

(** X6.  The approximate KL divergence of a minibatch is never
    negative, and it is zero exactly when every log-ratio is zero, that
    is when the re-evaluated policy gives the stored actions the
    probabilities it gave them during the rollout. *)
Theorem approx_kl_nonnegative :
  forall logratio : Row,
    logratio <> [] ->
    0 <= Optimizer.approx_kl_of logratio
    /\ (Optimizer.approx_kl_of logratio = 0
        <-> Forall (fun l => l = 0) logratio).
Proof.
  intros logratio Hne. rewrite approx_kl_formula.
  set (f := fun l : R => exp l - 1 - l).
  assert (Hf : Forall (fun x => 0 <= x) (f <$> logratio)).
  { apply Forall_fmap, Forall_forall. intros l _. cbn. unfold f.
    pose proof (exp_ineq1_le l). lra. }
  assert (Hne' : f <$> logratio <> []) by (by destruct logratio).
  split.
  - pose proof (SumFacts.sum_nonneg _ Hf).
    pose proof (SumFacts.length_pos_INR _ Hne').
    unfold Tensor.mean. apply Rmult_le_pos; [done|].
    left. by apply Rinv_0_lt_compat.
  - rewrite (SumFacts.mean_zero_iff _ Hne'). split.
    + intros Hsum. pose proof (SumFacts.sum_zero_all _ Hf Hsum) as Hz.
      apply Forall_fmap in Hz. eapply Forall_impl; [exact Hz|].
      intros l Hl. cbn in Hl. unfold f in Hl.
      destruct (Req_dec_T l 0) as [E|E]; [done|].
      pose proof (exp_ineq1 l E). lra.
    + intros Hz. apply SumFacts.sum_all_zero, Forall_fmap.
      eapply Forall_impl; [exact Hz|].
      intros l ->. cbn. unfold f. rewrite exp_0. lra.
Qed.

(** X6 on a two-element minibatch. *)
Lemma approx_kl_nonnegative_witness :
  0 <= Optimizer.approx_kl_of [0.1; -0.2]
  /\ (Optimizer.approx_kl_of [0.1; -0.2] = 0
      <-> Forall (fun l => l = 0) [0.1; -0.2]).
Proof. apply approx_kl_nonnegative. discriminate. Defined.

(** X7.  The clip fraction of a minibatch is a fraction: it lies
    between 0 and 1, it is 0 when no ratio is farther than [clip_coef]
    from 1 and 1 when every ratio is. *)
Theorem clipfrac_is_a_fraction :
  forall (clip_coef : R) (ratio : Row),
    ratio <> [] ->
    0 <= Policy.clipfrac clip_coef ratio <= 1
    /\ (Forall (fun r => Rabs (r - 1) <= clip_coef) ratio ->
        Policy.clipfrac clip_coef ratio = 0)
    /\ (Forall (fun r => Rabs (r - 1) > clip_coef) ratio ->
        Policy.clipfrac clip_coef ratio = 1).
Proof.
  intros c ratio Hne. unfold Policy.clipfrac.
  set (g := fun r => ValueLoss.float (bool_decide (Rabs (r - 1) > c))).
  assert (Hne' : g <$> ratio <> []) by (by destruct ratio).
  split; [|split].
  - apply SumFacts.mean_bounds; [done|].
    apply Forall_fmap, Forall_forall. intros r _. cbn. unfold g.
    destruct (bool_decide _); cbn; lra.
  - intros Hall. apply SumFacts.mean_zero_iff; [done|].
    apply SumFacts.sum_all_zero, Forall_fmap.
    eapply Forall_impl; [exact Hall|]. intros r Hr. cbn. unfold g.
    rewrite bool_decide_eq_false_2 by lra. done.
  - intros Hall.
    assert (H1 : Forall (fun x => 1 <= x <= 1) (g <$> ratio)).
    { apply Forall_fmap. eapply Forall_impl; [exact Hall|].
      intros r Hr. cbn. unfold g.
      rewrite bool_decide_eq_true_2 by done. cbn. lra. }
    pose proof (SumFacts.mean_bounds 1 1 _ Hne' H1). lra.
Qed.

(** X7 with clip [0.2] on three ratios. *)
Lemma clipfrac_is_a_fraction_witness :
  let clip_coef := 0.2 in
  0 <= Policy.clipfrac clip_coef [1; 1.5; 0.9] <= 1
  /\ (Forall (fun r => Rabs (r - 1) <= clip_coef) [1; 1.5; 0.9] ->
      Policy.clipfrac clip_coef [1; 1.5; 0.9] = 0)
  /\ (Forall (fun r => Rabs (r - 1) > clip_coef) [1; 1.5; 0.9] ->
      Policy.clipfrac clip_coef [1; 1.5; 0.9] = 1).
Proof. intros clip_coef. apply clipfrac_is_a_fraction. discriminate. Defined.

(** ** A pass over an unchanged policy *)

Lemma zip_with_ones (F : R -> R -> R) (l : Row) n :
  length l = n -> zip_with F l (replicate n 1) = (fun a => F a 1) <$> l.
Proof.
  revert n. induction l as [|a l IH]; intros [|n] Hn; cbn in *; try done.
  f_equal. apply IH. lia.
Qed.

(** X8.  On a minibatch whose log-ratios are all zero (the policy has
    not moved since the rollout, as in the first pass of an iteration)
    every ratio is 1, both KL estimates and the clip fraction are 0,
    and for a clip coefficient [>= 0] the policy loss is minus the mean
    advantage. *)
Theorem unchanged_policy_pass :
  forall (clip_coef : R) (mb_advantages : Row) (n : nat),
    (0 < n)%nat -> 0 <= clip_coef -> length mb_advantages = n ->
    Policy.ratio_of (replicate n 0) = replicate n 1
    /\ Optimizer.approx_kl_of (replicate n 0) = 0
    /\ Policy.old_approx_kl (replicate n 0) = 0
    /\ Policy.clipfrac clip_coef (Policy.ratio_of (replicate n 0)) = 0
    /\ Policy.pg_loss clip_coef mb_advantages (Policy.ratio_of (replicate n 0))
       = - Tensor.mean mb_advantages.
Proof.
  intros c advs n Hn Hc Hlen.
  assert (Hratio : Policy.ratio_of (replicate n 0) = replicate n 1).
  { unfold Policy.ratio_of. by rewrite fmap_replicate, exp_0. }
  rewrite Hratio. split; [done|]. split; [|split; [|split]].
  - rewrite approx_kl_formula, fmap_replicate, ConstantFeed.mean_replicate by done.
    rewrite exp_0. lra.
  - unfold Policy.old_approx_kl.
    rewrite fmap_replicate, ConstantFeed.mean_replicate by done. lra.
  - unfold Policy.clipfrac.
    rewrite fmap_replicate, ConstantFeed.mean_replicate by done.
    rewrite bool_decide_eq_false_2; [done|].
    replace (1 - 1) with 0 by lra. rewrite Rabs_R0. lra.
  - unfold Policy.pg_loss.
    rewrite PolicyFacts.pg_loss_rows_elem, (zip_with_ones _ _ n) by done.
    rewrite (list_fmap_ext _ (fun a => -1 * a + 0) advs).
    + unfold Tensor.mean.
      rewrite SumFacts.sum_affine, length_fmap. unfold Rdiv. ring.
    + intros i a _. cbn.
      rewrite PolicyFacts.clamp_inside by lra.
      rewrite Rmax_left by lra. ring.
Qed.

(** X8 on three advantages with clip [0.2]. *)
Lemma unchanged_policy_pass_witness :
  Policy.ratio_of (replicate 3 0) = replicate 3 1
  /\ Optimizer.approx_kl_of (replicate 3 0) = 0
  /\ Policy.old_approx_kl (replicate 3 0) = 0
  /\ Policy.clipfrac 0.2 (Policy.ratio_of (replicate 3 0)) = 0
  /\ Policy.pg_loss 0.2 [1; -2; 4] (Policy.ratio_of (replicate 3 0))
     = - Tensor.mean [1; -2; 4].
Proof. apply unchanged_policy_pass; [lia | lra | reflexivity]. Defined.

(** ** Advantage normalization *)

Lemma mapM_div (f : R -> R) (D : R) (l : Row) :
  D <> 0 ->
  mapM (fun a => Normalizer.div (f a) D) l = Some ((fun a => f a / D) <$> l).
Proof.
  intros HD. induction l as [|a l IH]; [done|].
  cbn. rewrite NormalizerFacts.div_nonzero by done. cbn.
  cbn in IH. rewrite IH. reflexivity.
Qed.

Lemma mean_of_zero_sum (l : Row) : Tensor.sum l = 0 -> Tensor.mean l = 0.
Proof. intros H. unfold Tensor.mean. rewrite H. unfold Rdiv. ring. Qed.

(** X9.  For a minibatch of at least two advantages, normalization
    divides by [std + 1e-8 > 0], returns the centred and scaled
    advantages, and these sum to zero (so their mean is zero).  A
    minibatch of a single advantage makes [std] divide zero by zero:
    the normalized advantage is not a number. *)
Theorem advantage_normalization_centres :
  forall mb_advantages : Row,
    (2 <= length mb_advantages)%nat ->
    (exists (s : R) (row : Row),
        Policy.std mb_advantages = Some s
        /\ 0 <= s
        /\ Policy.normalize_advantages true mb_advantages = Some row
        /\ row = (fun a => (a - Tensor.mean mb_advantages) / (s + 1 / 100000000))
                   <$> mb_advantages
        /\ Tensor.sum row = 0
        /\ Tensor.mean row = 0)
    /\ forall a : R, Policy.normalize_advantages true [a] = None.
Proof.
  intros advs Hlen. split.
  - assert (Hn : 2 <= INR (length advs)).
    { change 2 with (INR 2). apply le_INR. lia. }
    unfold Policy.normalize_advantages, Policy.std.
    rewrite NormalizerFacts.div_nonzero by lra. cbn [mbind option_bind].
    set (v := Tensor.sum _ / _).
    pose proof (sqrt_pos v) as Hs.
    rewrite mapM_div by lra.
    exists (sqrt v),
      ((fun a => (a - Tensor.mean advs) / (sqrt v + 1 / 100000000)) <$> advs).
    split; [reflexivity|]. split; [done|].
    split; [reflexivity|]. split; [reflexivity|].
    assert (Hsum : Tensor.sum
                     ((fun a => (a - Tensor.mean advs) / (sqrt v + 1 / 100000000))
                        <$> advs) = 0).
    { rewrite (list_fmap_ext _
                 (fun a => / (sqrt v + 1 / 100000000) * a
                           + - Tensor.mean advs / (sqrt v + 1 / 100000000))
                 advs).
      - rewrite SumFacts.sum_affine. unfold Tensor.mean. field. lra.
      - intros i a _. cbn. field. lra. }
    split; [exact Hsum|]. by apply mean_of_zero_sum.
  - intros a. unfold Policy.normalize_advantages, Policy.std, Normalizer.div.
    cbn [length INR].
    destruct (Req_dec_T (1 - 1) 0) as [_|H]; [done|lra].
Qed.

(** X9 on three advantages. *)
Lemma advantage_normalization_centres_witness :
  (exists (s : R) (row : Row),
      Policy.std [1; 2; 6] = Some s
      /\ 0 <= s
      /\ Policy.normalize_advantages true [1; 2; 6] = Some row
      /\ row = (fun a => (a - Tensor.mean [1; 2; 6]) / (s + 1 / 100000000))
                 <$> [1; 2; 6]
      /\ Tensor.sum row = 0
      /\ Tensor.mean row = 0)
  /\ forall a : R, Policy.normalize_advantages true [a] = None.
Proof. apply advantage_normalization_centres. cbn. lia. Defined.

(** ** More on the return normalizer *)

Lemma normalize_row_total (st : Normalizer.State) (l : Row) :
  0 < Normalizer.var st ->
  mapM (Normalizer.normalize st) l
  = Some ((fun x => (x - Normalizer.mean st) / sqrt (Normalizer.var st)) <$> l).
Proof.
  intros Hv. induction l as [|x l IH]; [done|].
  cbn. rewrite NormalizerFacts.normalize_total by done. cbn.
  cbn in IH. rewrite IH. reflexivity.
Qed.

(** the variance of a batch is its mean of squares minus its squared
    mean *)
Lemma np_var_mean_sq (l : Row) :
  l <> [] ->
  Diagnostics.np_var l
  = Tensor.mean ((fun x => x ^ 2) <$> l) - Tensor.mean l ^ 2.
Proof.
  intros Hl. pose proof (SumFacts.length_pos_INR l Hl) as Hn.
  unfold Diagnostics.np_var.
  unfold Tensor.mean at 1. rewrite SumFacts.sum_sq_dev, !length_fmap.
  unfold Tensor.mean. rewrite length_fmap. field. lra.
Qed.

(** X10.  With decay weight 0 the normalizer has no memory: after one
    update, from any state, the debiasing term is 1, the derived mean
    is the mean of the minibatch, the derived variance is the larger of
    the minibatch variance and the floor [1e-2], and each value target
    is [(return - batch mean) / sqrt(max(batch variance, 1e-2))]. *)
Theorem no_memory_normalizer :
  forall (st : Normalizer.State) (mb_returns : Row),
    mb_returns <> [] ->
    exists st' : Normalizer.State,
      Normalizer.update 0 st mb_returns = Some st'
      /\ Normalizer.debiasing_term st' = 1
      /\ Normalizer.mean st' = Tensor.mean mb_returns
      /\ Normalizer.var st'
         = Rmax (Diagnostics.np_var mb_returns) Normalizer.eps_var
      /\ Targets.value_targets true 0 st mb_returns
         = Some (st',
                 (fun x => (x - Tensor.mean mb_returns)
                           / sqrt (Rmax (Diagnostics.np_var mb_returns)
                                        Normalizer.eps_var))
                   <$> mb_returns).
Proof.
  intros st mb Hmb.
  destruct (NormalizerFacts.update_total 0 st mb Hmb)
    as (st' & Hupd & Hm & Hsq & Hd & Hc).
  exists st'. split; [exact Hupd|].
  assert (Hd1 : Normalizer.debiasing_term st' = 1) by (rewrite Hd; ring).
  unfold Normalizer.coherent in Hc.
  rewrite NormalizerFacts.derive_total in Hc. injection Hc as Hmean Hvar.
  assert (Hclamp : Normalizer.clamp_min 1 Normalizer.eps_debias = 1).
  { unfold Normalizer.clamp_min, Normalizer.eps_debias.
    apply Rmax_left. lra. }
  rewrite Hd1, Hclamp in Hmean, Hvar.
  assert (Hmean' : Normalizer.mean st' = Tensor.mean mb).
  { rewrite <- Hmean, Hm. field. }
  assert (Hvar' : Normalizer.var st'
                  = Rmax (Diagnostics.np_var mb) Normalizer.eps_var).
  { rewrite <- Hvar, Hm, Hsq, np_var_mean_sq by done.
    unfold Normalizer.clamp_min. f_equal. field. }
  split; [done|]. split; [done|]. split; [done|].
  unfold Targets.value_targets. rewrite Hupd. cbn [mbind option_bind].
  rewrite normalize_row_total.
  - cbn. by rewrite Hmean', Hvar'.
  - rewrite Hvar'. pose proof NormalizerFacts.eps_var_pos.
    pose proof (Rmax_r (Diagnostics.np_var mb) Normalizer.eps_var). lra.
Qed.

(** X10 from the initial state on the minibatch [[1; 3]]. *)
Lemma no_memory_normalizer_witness :
  let st := Normalizer.mkState 0 0 0 0 Normalizer.eps_var in
  exists st' : Normalizer.State,
    Normalizer.update 0 st [1; 3] = Some st'
    /\ Normalizer.debiasing_term st' = 1
    /\ Normalizer.mean st' = Tensor.mean [1; 3]
    /\ Normalizer.var st' = Rmax (Diagnostics.np_var [1; 3]) Normalizer.eps_var
    /\ Targets.value_targets true 0 st [1; 3]
       = Some (st',
               (fun x => (x - Tensor.mean [1; 3])
                         / sqrt (Rmax (Diagnostics.np_var [1; 3])
                                      Normalizer.eps_var))
                 <$> [1; 3]).
Proof. intros st. apply no_memory_normalizer. discriminate. Defined.

(** X11.  Value targets and value estimates are inverse to each other:
    with normalization on, a pass updates the normalizer with the
    minibatch returns and normalizes them, and denormalizing the
    targets with the statistics of that same update gives the raw
    returns back; with normalization off the targets are the raw
    returns and the normalizer is not touched. *)
Theorem value_targets_round_trip :
  forall (ewa_weigth : R) (st : Normalizer.State) (mb_returns : Row),
    mb_returns <> [] ->
    (exists (st' : Normalizer.State) (target_values : Row),
        Targets.value_targets true ewa_weigth st mb_returns
        = Some (st', target_values)
        /\ Normalizer.update ewa_weigth st mb_returns = Some st'
        /\ length target_values = length mb_returns
        /\ Normalizer.denormalize_row st' target_values = mb_returns)
    /\ Targets.value_targets false ewa_weigth st mb_returns
       = Some (st, mb_returns).
Proof.
  intros ewa st mb Hmb. split; [|reflexivity].
  destruct (NormalizerFacts.update_total ewa st mb Hmb)
    as (st' & Hupd & _ & _ & _ & Hc).
  pose proof (NormalizerFacts.coherent_var st' Hc) as Hvar.
  pose proof NormalizerFacts.eps_var_pos as Hpos.
  pose proof (NormalizerFacts.std_pos st' Hvar) as Hstd.
  exists st', ((fun x => (x - Normalizer.mean st') / sqrt (Normalizer.var st'))
                 <$> mb).
  split.
  { unfold Targets.value_targets. rewrite Hupd. cbn [mbind option_bind].
    rewrite normalize_row_total by lra. reflexivity. }
  split; [exact Hupd|]. split; [by rewrite length_fmap|].
  unfold Normalizer.denormalize_row. rewrite <- list_fmap_compose.
  rewrite <- (list_fmap_id mb) at 2. apply list_fmap_ext.
  intros i x _. cbn. unfold Normalizer.denormalize. field. lra.
Qed.

(** X11 from the initial state with the default decay. *)
Lemma value_targets_round_trip_witness :
  let st := Normalizer.mkState 0 0 0 0 Normalizer.eps_var in
  (exists (st' : Normalizer.State) (target_values : Row),
      Targets.value_targets true 0.999999 st [1; 3] = Some (st', target_values)
      /\ Normalizer.update 0.999999 st [1; 3] = Some st'
      /\ length target_values = length [1; 3]
      /\ Normalizer.denormalize_row st' target_values = [1; 3])
  /\ Targets.value_targets false 0.999999 st [1; 3] = Some (st, [1; 3]).
Proof. intros st. apply value_targets_round_trip. discriminate. Defined.

(** in every state the script reaches with a decay weight in [0,1]
    the debiasing term lies in [0,1] *)
Lemma debiasing_term_range (ewa : R) (st : Normalizer.State) :
  0 <= ewa <= 1 -> Normalizer.reachable ewa st ->
  0 <= Normalizer.debiasing_term st <= 1.
Proof.
  intros Hewa Hreach. induction Hreach as [st Hinit|st mb st' _ IH Hmb Hupd].
  - rewrite NormalizerFacts.init_total in Hinit. injection Hinit as <-.
    cbn. lra.
  - destruct (NormalizerFacts.update_total ewa st mb Hmb)
      as (st1 & Hupd1 & _ & _ & Hd & _).
    rewrite Hupd in Hupd1. injection Hupd1 as ->.
    rewrite Hd. nra.
Qed.

(** X12.  The debiasing term is a weight, not a statistic.  With a
    decay weight in [0,1], in every state the script reaches it lies in
    [0,1], so the divisor of the derived moments,
    [max(debiasing term, 1e-5)], lies in [1e-5, 1]; an update never
    lowers it and takes it to the same value whatever the (non-empty)
    minibatch holds. *)
Theorem debiasing_term_is_a_weight :
  forall (ewa_weigth : R) (st : Normalizer.State),
    0 <= ewa_weigth <= 1 ->
    Normalizer.reachable ewa_weigth st ->
    0 <= Normalizer.debiasing_term st <= 1
    /\ Normalizer.eps_debias
       <= Normalizer.clamp_min (Normalizer.debiasing_term st)
            Normalizer.eps_debias <= 1
    /\ forall mb mb' : Row, mb <> [] -> mb' <> [] ->
         exists st1 st2 : Normalizer.State,
           Normalizer.update ewa_weigth st mb = Some st1
           /\ Normalizer.update ewa_weigth st mb' = Some st2
           /\ Normalizer.debiasing_term st1 = Normalizer.debiasing_term st2
           /\ Normalizer.debiasing_term st
              <= Normalizer.debiasing_term st1 <= 1.
Proof.
  intros ewa st Hewa Hreach.
  pose proof (debiasing_term_range ewa st Hewa Hreach) as Hd.
  split; [exact Hd|]. split.
  - unfold Normalizer.clamp_min, Normalizer.eps_debias. split.
    + apply Rmax_r.
    + apply Rmax_lub; lra.
  - intros mb mb' Hmb Hmb'.
    destruct (NormalizerFacts.update_total ewa st mb Hmb)
      as (st1 & Hupd1 & _ & _ & Hd1 & _).
    destruct (NormalizerFacts.update_total ewa st mb' Hmb')
      as (st2 & Hupd2 & _ & _ & Hd2 & _).
    exists st1, st2. split; [done|]. split; [done|].
    split; [by rewrite Hd1, Hd2|]. rewrite Hd1. nra.
Qed.

(** X12 on the state after one update with the default decay. *)
Lemma debiasing_term_is_a_weight_witness :
  exists st : Normalizer.State,
    Normalizer.run 0.999999 [[1; 2]] = Some st
    /\ 0 <= Normalizer.debiasing_term st <= 1
    /\ Normalizer.eps_debias
       <= Normalizer.clamp_min (Normalizer.debiasing_term st)
            Normalizer.eps_debias <= 1
    /\ forall mb mb' : Row, mb <> [] -> mb' <> [] ->
         exists st1 st2 : Normalizer.State,
           Normalizer.update 0.999999 st mb = Some st1
           /\ Normalizer.update 0.999999 st mb' = Some st2
           /\ Normalizer.debiasing_term st1 = Normalizer.debiasing_term st2
           /\ Normalizer.debiasing_term st
              <= Normalizer.debiasing_term st1 <= 1.
Proof.
  destruct (NormalizerFacts.update_total 0.999999
              (Normalizer.mkState 0 0 0 0 Normalizer.eps_var) [1; 2])
    as (st & Hupd & _); [discriminate|].
  exists st. split.
  { unfold Normalizer.run. rewrite NormalizerFacts.init_total.
    cbn [mbind option_bind Normalizer.updates]. rewrite Hupd. reflexivity. }
  apply (debiasing_term_is_a_weight 0.999999 st); [lra|].
  apply (Normalizer.reach_update 0.999999
           (Normalizer.mkState 0 0 0 0 Normalizer.eps_var) [1; 2] st);
    [|discriminate|exact Hupd].
  apply Normalizer.reach_init, NormalizerFacts.init_total.
Defined.

(** ** More on the explained variance *)

Module VarFacts.

Lemma zip_with_replicate_r (F : R -> R -> R) (l : Row) n c :
  length l = n -> zip_with F l (replicate n c) = (fun a => F a c) <$> l.
Proof.
  revert n. induction l as [|a l IH]; intros [|n] Hn; cbn in *; try done.
  f_equal. apply IH. lia.
Qed.

Lemma sub_self (l : Row) : sub l l = replicate (length l) 0.
Proof.
  unfold sub. induction l as [|a l IH]; [done|].
  cbn. rewrite IH. f_equal. lra.
Qed.

Lemma np_var_nonneg (l : Row) : 0 <= Diagnostics.np_var l.
Proof.
  unfold Diagnostics.np_var, Tensor.mean.
  destruct l as [|a l]; [cbn; unfold Rdiv; rewrite Rmult_0_l; lra|].
  set (row := _ <$> (a :: l)).
  assert (Hne : row <> []) by done.
  apply Rmult_le_pos.
  - apply SumFacts.sum_nonneg, Forall_fmap, Forall_forall.
    intros x _. cbn. apply pow2_ge_0.
  - left. apply Rinv_0_lt_compat. by apply SumFacts.length_pos_INR.
Qed.

Lemma np_var_nil : Diagnostics.np_var [] = 0.
Proof.
  unfold Diagnostics.np_var, Tensor.mean. cbn. unfold Rdiv. ring.
Qed.

Lemma np_var_constant n c : (0 < n)%nat -> Diagnostics.np_var (replicate n c) = 0.
Proof.
  intros Hn. unfold Diagnostics.np_var.
  rewrite (ConstantFeed.mean_replicate n c Hn), fmap_replicate.
  rewrite ConstantFeed.mean_replicate by done. ring.
Qed.

(** shifting every element by the same amount leaves the variance *)
Lemma np_var_shift c (l : Row) :
  l <> [] ->
  Diagnostics.np_var ((fun x => x - c) <$> l) = Diagnostics.np_var l.
Proof.
  intros Hl. pose proof (SumFacts.length_pos_INR l Hl) as Hn.
  assert (Hmean : Tensor.mean ((fun x => x - c) <$> l) = Tensor.mean l - c).
  { unfold Tensor.mean.
    rewrite (list_fmap_ext _ (fun x => 1 * x + - c) l)
      by (intros; cbn; ring).
    rewrite SumFacts.sum_affine, length_fmap. field. lra. }
  unfold Diagnostics.np_var. rewrite Hmean, <- list_fmap_compose.
  rewrite (list_fmap_ext _ (fun x => (x - Tensor.mean l) ^ 2) l); [done|].
  intros i x _. cbn. ring.
Qed.

End VarFacts.

(** X13.  When the returns have non-zero variance the explained
    variance is a number at most 1; it is exactly 1 when the value
    estimates equal the returns and exactly 0 when the value estimates
    are all the same constant. *)
Theorem explained_variance_extremes :
  forall y_true : Row,
    Diagnostics.np_var y_true <> 0 ->
    Diagnostics.explained_var y_true y_true = Some 1
    /\ (forall c,
          Diagnostics.explained_var (replicate (length y_true) c) y_true
          = Some 0)
    /\ (forall y_pred, exists v,
          Diagnostics.explained_var y_pred y_true = Some v /\ v <= 1).
Proof.
  intros y Hvar.
  assert (Hne : y <> []) by (intros ->; apply Hvar, VarFacts.np_var_nil).
  assert (Hlen : (0 < length y)%nat) by (destruct y; [done|cbn; lia]).
  pose proof (VarFacts.np_var_nonneg y) as Hpos.
  unfold Diagnostics.explained_var.
  destruct (Req_dec_T (Diagnostics.np_var y) 0) as [E|_]; [done|].
  split; [|split].
  - rewrite VarFacts.sub_self, VarFacts.np_var_constant by done.
    f_equal. unfold Rdiv. ring.
  - intros c. unfold sub.
    rewrite (VarFacts.zip_with_replicate_r Rminus y (length y) c) by done.
    rewrite VarFacts.np_var_shift by done. f_equal. field. done.
  - intros y_pred. eexists. split; [reflexivity|].
    pose proof (VarFacts.np_var_nonneg (sub y y_pred)) as Hnum.
    assert (0 <= Diagnostics.np_var (sub y y_pred) / Diagnostics.np_var y).
    { apply Rmult_le_pos; [done|]. left. apply Rinv_0_lt_compat. lra. }
    lra.
Qed.

(** X13 on the returns [[1; 3]]. *)
Lemma explained_variance_extremes_witness :
  Diagnostics.explained_var [1; 3] [1; 3] = Some 1
  /\ (forall c,
        Diagnostics.explained_var (replicate (length [1; 3]) c) [1; 3] = Some 0)
  /\ (forall y_pred, exists v,
        Diagnostics.explained_var y_pred [1; 3] = Some v /\ v <= 1).
Proof.
  apply explained_variance_extremes.
  unfold Diagnostics.np_var, Tensor.mean. cbn. lra.
Defined.

(** ** Episodes that end together *)

Module EpisodesFacts.
Import Episode.

Lemma np_any_none n : np_any (replicate n false) = false.
Proof. unfold np_any. induction n as [|n IH]; [done|]. cbn. exact IH. Qed.

Lemma np_any_all n : (0 < n)%nat -> np_any (replicate n true) = true.
Proof. intros Hn. destruct n; [lia|done]. Qed.

Lemma zero_where_all (x : Row) n :
  length x = n -> zero_where (replicate n true) x = zeros n.
Proof.
  unfold zero_where, zeros. revert x.
  induction n as [|n IH]; intros [|a x] Hx; cbn in *; try done.
  f_equal. apply IH. lia.
Qed.

Lemma totals_length n (rs : list Row) (r0 : Row) :
  length r0 = n -> Forall (fun r => length r = n) rs ->
  length (fold_left add rs r0) = n.
Proof.
  intros H0 Hall. revert r0 H0.
  induction Hall as [|r rs Hr _ IH]; intros r0 H0; [done|].
  cbn. apply IH. rewrite add_length. lia.
Qed.

(** steps at which no slot is done flush nothing: the rewards add up
    slot by slot and every length grows by one per step *)
Lemma quiet_steps vec n (rs : list Row) tail :
  forall (r0 : Row) (l : R),
    Episodes.run_steps vec (mkAcc r0 (replicate n l))
      (((fun r => (r, replicate n false)) <$> rs) ++ tail)
    = Episodes.run_steps vec
        (mkAcc (fold_left add rs r0) (replicate n (l + INR (length rs))))
        tail.
Proof.
  induction rs as [|r rs IH]; intros r0 l.
  - cbn. by rewrite Rplus_0_r.
  - rewrite fmap_cons. cbn [app Episodes.run_steps].
    rewrite EpisodeFacts.step_no_flush by apply np_any_none.
    cbn [episode_rewards episode_lengths]. rewrite fmap_replicate.
    destruct (Episodes.run_steps vec _ (_ ++ tail)) as [a later] eqn:E.
    rewrite IH in E. cbn [fold_left length].
    rewrite S_INR. replace (l + (INR (length rs) + 1))
      with (l + 1 + INR (length rs)) by ring.
    by rewrite E.
Qed.

End EpisodesFacts.

(** X14.  When the slots' episodes run in step (no slot is done for
    [k] steps, then all [N > 0] slots are done at once), nothing is
    logged during the [k] steps, and the one summary logged at the end
    reports the episode length [k + 1] and the mean over the slots of
    each slot's total reward (all [k + 1] rewards); the accumulators
    are back to zero afterwards. *)
Theorem lockstep_episode_summary :
  forall (vec : R) (N : nat) (rs : list Row) (last : Row),
    (0 < N)%nat -> Forall (fun r => length r = N) rs -> length last = N ->
    Episodes.run_steps vec (Episode.init_acc N)
      (((fun r => (r, replicate N false)) <$> rs)
       ++ [(last, replicate N true)])
    = (Episode.init_acc N,
       [Episode.mkSummary
          (Tensor.mean (fold_left add (rs ++ [last]) (zeros N)))
          (Tensor.mean (scale vec (fold_left add (rs ++ [last]) (zeros N))))
          (INR (length rs) + 1)]).
Proof.
  intros vec N rs last HN Hrs Hlast.
  unfold Episode.init_acc at 1. unfold zeros at 2.
  rewrite EpisodesFacts.quiet_steps.
  cbn [Episodes.run_steps].
  rewrite EpisodeFacts.step_flush by (by apply EpisodesFacts.np_any_all).
  cbn [Episode.episode_rewards Episode.episode_lengths].
  rewrite fold_left_app. cbn [fold_left].
  set (tot := fold_left add rs (zeros N)).
  assert (Htot : length tot = N)
    by (apply EpisodesFacts.totals_length; [apply zeros_length|done]).
  assert (Hsum : length (add tot last) = N) by (rewrite add_length; lia).
  rewrite fmap_replicate, as_float_all_flagged.
  rewrite !EpisodesFacts.zero_where_all
    by (done || by rewrite length_replicate).
  rewrite !mul_ones
    by (done || (by rewrite length_replicate) || (by rewrite scale_length)).
  rewrite ConstantFeed.mean_replicate by done.
  unfold Episode.init_acc. do 4 f_equal. ring.
Qed.

(** X14 on two slots and a three-step episode. *)
Lemma lockstep_episode_summary_witness :
  Episodes.run_steps 2 (Episode.init_acc 2)
    (((fun r => (r, replicate 2 false)) <$> [[1; 0]; [2; 5]])
     ++ [([4; 1], replicate 2 true)])
  = (Episode.init_acc 2,
     [Episode.mkSummary
        (Tensor.mean (fold_left add ([[1; 0]; [2; 5]] ++ [[4; 1]]) (zeros 2)))
        (Tensor.mean
           (scale 2 (fold_left add ([[1; 0]; [2; 5]] ++ [[4; 1]]) (zeros 2))))
        (INR (length [[1; 0]; [2; 5]]) + 1)]).
Proof.
  apply lockstep_episode_summary; [lia | repeat constructor | reflexivity].
Defined.

(** ** The minibatches of an epoch *)

Module MinibatchFacts.

Lemma slices_concat {A : Type} (m : nat) (l : list A) k :
  concat ((fun i => take m (drop (i * m) l)) <$> seq 0 k) = take (k * m) l.
Proof.
  induction k as [|k IH]; [done|].
  rewrite seq_S, fmap_app, concat_app, IH. cbn [fmap list_fmap concat].
  rewrite app_nil_r, take_take_drop. f_equal. lia.
Qed.

Lemma count_covers n m :
  (0 < m)%nat -> (n <= (n + m - 1) / m * m)%nat.
Proof.
  intros Hm.
  pose proof (Nat.mul_succ_div_gt (n + m - 1) m ltac:(lia)). nia.
Qed.

Lemma count_tight n m i :
  (0 < m)%nat -> (i < (n + m - 1) / m)%nat -> (i * m < n)%nat.
Proof.
  intros Hm Hi.
  pose proof (Nat.Div0.mul_div_le (n + m - 1) m). nia.
Qed.

End MinibatchFacts.

(** X15.  In one epoch the minibatch slices, taken in order, are a
    partition of the shuffled index list: concatenated they give the
    list back, so every sample is used exactly once per epoch; each
    slice holds between 1 and [minibatch_size] indices and there are
    [ceil(batch_size / minibatch_size)] of them. *)
Theorem epoch_slices_partition :
  forall (minibatch_size : nat) (b_inds : list nat),
    (0 < minibatch_size)%nat ->
    exists slices : list (list nat),
      Minibatches.epoch_slices (length b_inds) minibatch_size b_inds
      = Some slices
      /\ concat slices = b_inds
      /\ Forall (fun sl => (0 < length sl <= minibatch_size)%nat) slices
      /\ length slices
         = ((length b_inds + minibatch_size - 1) / minibatch_size)%nat.
Proof.
  intros m l Hm. unfold Minibatches.epoch_slices, Optimizer.py_range.
  destruct (Nat.eqb_spec m 0) as [?|_]; [lia|]. cbn [mbind option_bind].
  set (k := ((length l + m - 1) / m)%nat).
  rewrite <- list_fmap_compose.
  rewrite (list_fmap_ext _ (fun i => take m (drop (i * m) l)) (seq 0 k)).
  2:{ intros i x _. cbn. unfold Optimizer.slice. f_equal. lia. }
  eexists. split; [reflexivity|]. split; [|split].
  - rewrite MinibatchFacts.slices_concat. apply take_ge.
    by apply MinibatchFacts.count_covers.
  - apply Forall_fmap, Forall_forall. intros i Hi. cbn.
    apply elem_of_seq in Hi.
    pose proof (MinibatchFacts.count_tight (length l) m i Hm ltac:(lia)).
    rewrite length_take, length_drop. lia.
  - by rewrite length_fmap, length_seq.
Qed.

(** X15 on ten indices in minibatches of four. *)
Lemma epoch_slices_partition_witness :
  exists slices : list (list nat),
    Minibatches.epoch_slices (length [3; 1; 4; 0; 5; 9; 2; 6; 8; 7]%nat) 4
      [3; 1; 4; 0; 5; 9; 2; 6; 8; 7]%nat
    = Some slices
    /\ concat slices = [3; 1; 4; 0; 5; 9; 2; 6; 8; 7]%nat
    /\ Forall (fun sl => (0 < length sl <= 4)%nat) slices
    /\ length slices
       = ((length [3; 1; 4; 0; 5; 9; 2; 6; 8; 7]%nat + 4 - 1) / 4)%nat.
Proof. apply epoch_slices_partition. lia. Defined.

(** ** Run-time arguments and the step counter *)

Module ConfigFacts.
Import Config.

#[local] Open Scope Z_scope.

Lemma counting_fold {A : Type} (c : Z) (l : list A) (g : Z) :
  fold_left (fun g _ => g + c) l g = g + Z.of_nat (length l) * c.
Proof.
  revert g. induction l as [|x l IH]; intros g; [cbn; lia|].
  cbn [fold_left length]. rewrite IH. lia.
Qed.

Lemma fold_left_pointwise {A B : Type} (f g : A -> B -> A) (l : list B) (a : A) :
  (forall a b, f a b = g a b) -> fold_left f l a = fold_left g l a.
Proof.
  intros Hfg. revert a. induction l as [|b l IH]; intros a; [done|].
  cbn. by rewrite Hfg, IH.
Qed.

Lemma int_range_length lo hi : length (int_range lo hi) = Z.to_nat (hi - lo).
Proof. unfold int_range. by rewrite length_fmap, length_seq. Qed.

Lemma int_range_In lo hi i : In i (int_range lo hi) -> lo <= i < hi.
Proof.
  unfold int_range. intros Hin.
  apply list_elem_of_In, list_elem_of_fmap in Hin as (k & -> & Hk).
  apply elem_of_seq in Hk. lia.
Qed.

Lemma rollout_global_step_total num_steps num_envs g :
  0 <= num_steps ->
  rollout_global_step num_steps num_envs g = g + num_steps * num_envs.
Proof.
  intros H. unfold rollout_global_step.
  rewrite counting_fold, int_range_length, Z2Nat.id by lia.
  by rewrite Z.sub_0_r.
Qed.

#[local] Close Scope Z_scope.

End ConfigFacts.

(** X16.  For positive environment, agent, step and minibatch counts
    and a non-negative step budget the run-time arguments are
    computed, [batch_size] is slots times steps,
    [num_iterations * batch_size] is the largest multiple of
    [batch_size] that does not exceed [total_timesteps], and the
    minibatch size is [batch_size / num_minibatches] rounded down.
    Whenever the script has run the rollout of an iteration of its
    loop, the step counter reads [iteration * batch_size], which never
    exceeds the budget. *)
Theorem run_stays_within_budget :
  forall (args_num_envs num_agents num_steps num_minibatches
          total_timesteps : Z),
    (0 < args_num_envs)%Z -> (0 < num_agents)%Z -> (0 < num_steps)%Z ->
    (0 < num_minibatches)%Z -> (0 <= total_timesteps)%Z ->
    exists rt : Config.Runtime,
      Config.runtime args_num_envs num_agents num_steps num_minibatches
        total_timesteps = Some rt
      /\ Config.batch_size rt = (args_num_envs * num_agents * num_steps)%Z
      /\ (Config.num_iterations rt * Config.batch_size rt <= total_timesteps
          < (Config.num_iterations rt + 1) * Config.batch_size rt)%Z
      /\ (Config.minibatch_size rt * num_minibatches <= Config.batch_size rt
          < (Config.minibatch_size rt + 1) * num_minibatches)%Z
      /\ forall iteration : Z,
           In iteration (Config.int_range 1 (Config.num_iterations rt + 1)) ->
           Config.global_step_after rt num_steps iteration
           = (iteration * Config.batch_size rt)%Z
           /\ (Config.global_step_after rt num_steps iteration
               <= total_timesteps)%Z.
Proof.
  intros ne na ns nm tt Hne Hna Hns Hnm Htt.
  assert (Hb : (0 < ne * na * ns)%Z) by nia.
  unfold Config.runtime, Config.floordiv.
  destruct (Z.eqb_spec nm 0) as [?|_]; [lia|].
  destruct (Z.eqb_spec (ne * na * ns) 0) as [?|_]; [lia|].
  cbn [mbind option_bind]. eexists. split; [reflexivity|].
  cbn [Config.batch_size Config.minibatch_size Config.num_iterations].
  split; [reflexivity|].
  assert (Hiter : (0 <= tt / (ne * na * ns))%Z) by (apply Z.div_pos; lia).
  pose proof (Z.mul_div_le tt (ne * na * ns) Hb).
  pose proof (Z.mul_succ_div_gt tt (ne * na * ns) Hb).
  pose proof (Z.mul_div_le (ne * na * ns) nm Hnm).
  pose proof (Z.mul_succ_div_gt (ne * na * ns) nm Hnm).
  split; [lia|]. split; [lia|].
  intros iteration Hin.
  apply ConfigFacts.int_range_In in Hin.
  assert (Hstep : Config.global_step_after
                    (Config.mkRuntime (ne * na) (ne * na * ns)
                       (ne * na * ns / nm) (tt / (ne * na * ns))) ns iteration
                  = (iteration * (ne * na * ns))%Z).
  { unfold Config.global_step_after. cbn [Config.num_envs].
    rewrite (ConfigFacts.fold_left_pointwise _
               (fun g _ => (g + ns * (ne * na))%Z))
      by (intros g _; apply ConfigFacts.rollout_global_step_total; lia).
    rewrite ConfigFacts.counting_fold, ConfigFacts.int_range_length.
    rewrite Z2Nat.id by lia. ring. }
  rewrite Hstep. split; [reflexivity|]. nia.
Qed.

(** X16 on the default configuration: 128 environments of 3 agents,
    25 steps, one minibatch, a budget of 100000000 steps. *)
Lemma run_stays_within_budget_witness :
  exists rt : Config.Runtime,
    Config.runtime 128 3 25 1 100000000 = Some rt
    /\ Config.batch_size rt = (128 * 3 * 25)%Z
    /\ (Config.num_iterations rt * Config.batch_size rt <= 100000000
        < (Config.num_iterations rt + 1) * Config.batch_size rt)%Z
    /\ (Config.minibatch_size rt * 1 <= Config.batch_size rt
        < (Config.minibatch_size rt + 1) * 1)%Z
    /\ forall iteration : Z,
         In iteration (Config.int_range 1 (Config.num_iterations rt + 1)) ->
         Config.global_step_after rt 25 iteration
         = (iteration * Config.batch_size rt)%Z
         /\ (Config.global_step_after rt 25 iteration <= 100000000)%Z.
Proof. apply run_stays_within_budget; lia. Defined.

(** X17.  Computing the run-time arguments fails with a division by
    zero exactly when [num_minibatches] is zero or the batch is empty
    (no environment, no agent or no step). *)
Theorem runtime_division_by_zero :
  forall (args_num_envs num_agents num_steps num_minibatches
          total_timesteps : Z),
    Config.runtime args_num_envs num_agents num_steps num_minibatches
      total_timesteps = None
    <-> (num_minibatches = 0
         \/ args_num_envs * num_agents * num_steps = 0)%Z.
Proof.
  intros ne na ns nm tt. unfold Config.runtime, Config.floordiv.
  destruct (Z.eqb_spec nm 0) as [E|E]; cbn.
  - split; [by left|done].
  - destruct (Z.eqb_spec (ne * na * ns) 0) as [E'|E']; cbn.
    + split; [by right|done].
    + split; [done|]. intros [?|?]; done.
Qed.

(** ** Learning-rate annealing *)

(** X18.  With annealing and a positive initial rate, the rate of
    iteration 1 is the initial rate, the rate falls strictly from one
    iteration to the next, and the last iteration still trains at
    [learning_rate / num_iterations]: the rate stays positive and never
    reaches zero.  Without annealing the rate is the initial rate. *)
Theorem learning_rate_schedule :
  forall (learning_rate : R) (iteration num_iterations : Z),
    0 < learning_rate -> (1 <= iteration <= num_iterations)%Z ->
    Config.lrnow true learning_rate 1 num_iterations = learning_rate
    /\ Config.lrnow true learning_rate num_iterations num_iterations
       = learning_rate / IZR num_iterations
    /\ learning_rate / IZR num_iterations
       <= Config.lrnow true learning_rate iteration num_iterations
       <= learning_rate
    /\ 0 < Config.lrnow true learning_rate iteration num_iterations
    /\ (forall later : Z,
          (iteration < later)%Z ->
          Config.lrnow true learning_rate later num_iterations
          < Config.lrnow true learning_rate iteration num_iterations)
    /\ Config.lrnow false learning_rate iteration num_iterations
       = learning_rate.
Proof.
  intros lr it n Hlr [H1 Hn].
  assert (Hn1 : 1 <= IZR n) by (apply IZR_le; lia).
  assert (Hit1 : 1 <= IZR it) by (apply IZR_le; lia).
  assert (Hitn : IZR it <= IZR n) by (by apply IZR_le).
  assert (Hform : forall i : Z,
            Config.lrnow true lr i n = (IZR n - IZR i + 1) * (lr / IZR n)).
  { intros i. unfold Config.lrnow. field. lra. }
  assert (Hunit : 0 < lr / IZR n).
  { apply Rmult_lt_0_compat; [done|]. apply Rinv_0_lt_compat. lra. }
  split; [rewrite Hform; field; lra|].
  split; [rewrite Hform; field; lra|].
  split.
  { rewrite Hform. split; [nra|].
    replace lr with (IZR n * (lr / IZR n)) at 2 by (field; lra). nra. }
  split; [rewrite Hform; nra|].
  split; [|reflexivity].
  intros later Hlater. rewrite !Hform.
  assert (IZR it < IZR later) by (by apply IZR_lt). nra.
Qed.

(** X18 with the default rate at iteration 3 of 10. *)
Lemma learning_rate_schedule_witness :
  Config.lrnow true 0.00025 1 10 = 0.00025
  /\ Config.lrnow true 0.00025 10 10 = 0.00025 / IZR 10
  /\ 0.00025 / IZR 10 <= Config.lrnow true 0.00025 3 10 <= 0.00025
  /\ 0 < Config.lrnow true 0.00025 3 10
  /\ (forall later : Z,
        (3 < later)%Z ->
        Config.lrnow true 0.00025 later 10 < Config.lrnow true 0.00025 3 10)
  /\ Config.lrnow false 0.00025 3 10 = 0.00025.
Proof. apply learning_rate_schedule; [lra | lia]. Defined.

(** ** The global state of a slot *)

Module GlobalStateFacts.
Import GlobalState.

Lemma chunks_length cols rows flat : length (chunks cols rows flat) = rows.
Proof.
  revert flat. induction rows as [|k IH]; intros flat; [done|].
  cbn. by rewrite IH.
Qed.

Lemma chunks_lookup cols rows :
  forall (flat : Row) e,
    (e < rows)%nat ->
    chunks cols rows flat !! e = Some (take cols (drop (e * cols) flat)).
Proof.
  induction rows as [|k IH]; intros flat e He; [lia|].
  destruct e as [|e]; cbn [chunks].
  - done.
  - cbn [lookup list_lookup]. change (chunks cols k (drop cols flat) !! e
      = Some (take cols (drop (S e * cols) flat))).
    rewrite IH by lia. by rewrite drop_drop.
Qed.

Lemma concat_length_uniform d (x : Table) :
  Forall (fun r => length r = d) x -> length (concat x) = (length x * d)%nat.
Proof.
  induction 1 as [|r x Hr _ IH]; [done|].
  cbn. rewrite length_app, IH, Hr. lia.
Qed.

Lemma concat_drop_uniform d (x : Table) k :
  Forall (fun r => length r = d) x ->
  drop (k * d) (concat x) = concat (drop k x).
Proof.
  intros Hx. revert k. induction Hx as [|r x Hr _ IH]; intros k.
  - by destruct k; cbn; rewrite ?drop_nil.
  - destruct k as [|k]; [done|]. cbn [concat drop].
    replace (S k * d)%nat with (length r + k * d)%nat by lia.
    rewrite <- drop_drop, drop_app_length. apply IH.
Qed.

Lemma concat_take_uniform d (x : Table) k :
  Forall (fun r => length r = d) x ->
  take (k * d) (concat x) = concat (take k x).
Proof.
  intros Hx. revert k. induction Hx as [|r x Hr _ IH]; intros k.
  - by destruct k; cbn; rewrite ?take_nil.
  - destruct k as [|k]; [done|]. cbn [concat take].
    replace (S k * d)%nat with (length r + k * d)%nat by lia.
    rewrite take_app, take_ge by lia.
    replace (length r + k * d - length r)%nat with (k * d)%nat by lia.
    by rewrite IH.
Qed.

(** row [i] of the repeated table is row [i / n] of the table *)
Lemma repeat_rows_lookup n (x : Table) :
  (0 < n)%nat -> forall i, repeat_rows n x !! i = x !! (i / n)%nat.
Proof.
  intros Hn. unfold repeat_rows.
  induction x as [|r x IH]; intros i; [done|].
  rewrite bind_cons. destruct (Nat.lt_ge_cases i n) as [Hi|Hi].
  - rewrite lookup_app_l by (by rewrite length_replicate).
    rewrite lookup_replicate_2 by done.
    by rewrite Nat.div_small.
  - rewrite lookup_app_r by (by rewrite length_replicate).
    rewrite length_replicate, IH.
    replace (i / n)%nat with (S ((i - n) / n)); [done|].
    replace i with ((i - n) + 1 * n)%nat at 2 by lia.
    rewrite Nat.div_add by lia. lia.
Qed.

Lemma repeat_rows_length n (x : Table) :
  length (repeat_rows n x) = (length x * n)%nat.
Proof.
  unfold repeat_rows. induction x as [|r x IH]; [done|].
  rewrite bind_cons, length_app, length_replicate, IH. cbn. lia.
Qed.

End GlobalStateFacts.

(** X19.  For [E] environments of [A] agents whose observations have
    [d] entries, the global state is computed, has one row of [A * d]
    entries per slot, and the row of slot [i] is the concatenation of
    the observations of the [A] slots of its group [i / A]; slots of
    the same group are given the same state. *)
Theorem global_state_is_group_concatenation :
  forall (E A d : nat) (next_obs : Table),
    (0 < E)%nat -> (0 < A)%nat -> shaped (E * A) d next_obs ->
    exists state : Table,
      GlobalState.global_state (E * A) A next_obs = Some state
      /\ shaped (E * A) (A * d) state
      /\ (forall i, (i < E * A)%nat ->
            state !! i = Some (concat (take A (drop (i / A * A) next_obs))))
      /\ (forall i j, (i / A = j / A)%nat -> state !! i = state !! j).
Proof.
  intros E A d obs HE HA [Hlen Hrows].
  pose proof (GlobalStateFacts.concat_length_uniform d obs Hrows) as Hflat.
  rewrite Hlen in Hflat.
  unfold GlobalState.global_state, GlobalState.reshape.
  destruct (Nat.eqb_spec A 0) as [?|_]; [lia|].
  rewrite Nat.div_mul by lia.
  destruct (Nat.eqb_spec E 0) as [?|_]; [lia|].
  replace (length (concat obs)) with ((A * d) * E)%nat by lia.
  rewrite Nat.Div0.mod_mul, Nat.div_mul by lia. cbn [Nat.eqb mbind option_bind].
  set (x := GlobalState.chunks (A * d) E (concat obs)).
  assert (Hlook : forall i, (i < E * A)%nat ->
            GlobalState.repeat_rows A x !! i
            = Some (concat (take A (drop (i / A * A) obs)))).
  { intros i Hi. rewrite GlobalStateFacts.repeat_rows_lookup by done.
    assert (He : (i / A < E)%nat) by (apply Nat.Div0.div_lt_upper_bound; lia).
    unfold x. rewrite GlobalStateFacts.chunks_lookup by done. f_equal.
    replace (i / A * (A * d))%nat with ((i / A * A) * d)%nat by lia.
    rewrite (GlobalStateFacts.concat_drop_uniform d) by done.
    apply GlobalStateFacts.concat_take_uniform. by apply Forall_drop. }
  exists (GlobalState.repeat_rows A x).
  split; [reflexivity|]. split; [|split; [exact Hlook|]].
  - split.
    + unfold x.
      by rewrite GlobalStateFacts.repeat_rows_length,
        GlobalStateFacts.chunks_length.
    + apply Forall_lookup. intros i r Hr.
      assert (Hi : (i < E * A)%nat).
      { apply lookup_lt_Some in Hr.
        unfold x in Hr.
        by rewrite GlobalStateFacts.repeat_rows_length,
          GlobalStateFacts.chunks_length in Hr. }
      rewrite Hlook in Hr by done. injection Hr as <-.
      assert (Hd : Forall (fun r => length r = d)
                     (take A (drop (i / A * A) obs)))
        by (by apply Forall_take, Forall_drop).
      rewrite (GlobalStateFacts.concat_length_uniform d) by done.
      rewrite length_take, length_drop.
      assert (He : (i / A < E)%nat) by (apply Nat.Div0.div_lt_upper_bound; lia).
      nia.
  - intros i j Hij.
    by rewrite !GlobalStateFacts.repeat_rows_lookup, Hij by done.
Qed.

(** X19 on two environments of two agents with observations of size 1. *)
Lemma global_state_is_group_concatenation_witness :
  exists state : Table,
    GlobalState.global_state (2 * 2) 2 [[1]; [2]; [3]; [4]] = Some state
    /\ shaped (2 * 2) (2 * 1) state
    /\ (forall i, (i < 2 * 2)%nat ->
          state !! i
          = Some (concat (take 2 (drop (i / 2 * 2) [[1]; [2]; [3]; [4]]))))
    /\ (forall i j, (i / 2 = j / 2)%nat -> state !! i = state !! j).
Proof.
  apply global_state_is_group_concatenation;
    [lia | lia | split; [reflexivity | repeat constructor]].
Defined.

(** ** The flattened batch *)

Module BatchFacts.

Lemma flatten_lookup T N (tbl : Table) t s :
  shaped T N tbl -> (t < T)%nat -> (s < N)%nat ->
  flatten tbl !! (t * N + s)%nat = Some (at2 tbl t s).
Proof.
  intros [Hlen Hrows] Ht Hs. unfold flatten, at2.
  rewrite <- lookup_drop.
  rewrite (GlobalStateFacts.concat_drop_uniform N) by done.
  assert (Hrow : tbl !! t = Some (tbl !!! t))
    by (apply list_lookup_lookup_total_lt; lia).
  assert (HrowN : length (tbl !!! t) = N)
    by (apply (Forall_lookup_1 _ _ _ _ Hrows Hrow)).
  rewrite (drop_S _ _ _ Hrow). cbn [concat].
  rewrite lookup_app_l by lia.
  apply list_lookup_lookup_total_lt. lia.
Qed.

Lemma flatten_add2 T N (a b : Table) :
  shaped T N a -> shaped T N b ->
  flatten (add2 a b) = add (flatten a) (flatten b).
Proof.
  intros [Ha Hra] [Hb Hrb]. unfold flatten, add2, add.
  revert T b Ha Hb Hrb.
  induction Hra as [|r a Hr _ IH]; intros T [|r' b] Ha Hb Hrb; cbn in *;
    try done; try lia.
  inversion Hrb as [|? ? Hr' Hrb']; subst.
  rewrite zip_with_app by lia.
  f_equal. apply (IH (length a)); [done | lia | done].
Qed.

(** subtracting what was added gives the first row back *)
Lemma sub_add_cancel (x y : Row) :
  length x = length y -> sub (add x y) y = x.
Proof.
  unfold sub, add. revert y.
  induction x as [|a x IH]; intros [|b y] H; cbn in *; try done.
  f_equal; [lra|]. apply IH. lia.
Qed.

End BatchFacts.

(** X20.  Flattening keeps the step-major order: the batch has
    [T * N] elements and element [t * N + s] is the table's entry
    [(t, s)]; and since [returns = advantages + values], the flattened
    returns are the flattened advantages plus the flattened values,
    element by element. *)
Theorem batch_is_step_major :
  forall (T N : nat) (advantages values : Table),
    shaped T N advantages -> shaped T N values ->
    length (flatten advantages) = (T * N)%nat
    /\ (forall t s, (t < T)%nat -> (s < N)%nat ->
          flatten advantages !! (t * N + s)%nat = Some (at2 advantages t s))
    /\ flatten (add2 advantages values)
       = add (flatten advantages) (flatten values).
Proof.
  intros T N adv vals Ha Hv. split; [|split].
  - destruct Ha as [Hl Hr]. unfold flatten.
    rewrite (GlobalStateFacts.concat_length_uniform N) by done. by rewrite Hl.
  - intros t s Ht Hs. by apply (BatchFacts.flatten_lookup T N).
  - by apply (BatchFacts.flatten_add2 T N).
Qed.

(** X20 on tables of two steps and two slots. *)
Lemma batch_is_step_major_witness :
  length (flatten [[1; 2]; [3; 4]]) = (2 * 2)%nat
  /\ (forall t s, (t < 2)%nat -> (s < 2)%nat ->
        flatten [[1; 2]; [3; 4]] !! (t * 2 + s)%nat
        = Some (at2 [[1; 2]; [3; 4]] t s))
  /\ flatten (add2 [[1; 2]; [3; 4]] [[5; 6]; [7; 8]])
     = add (flatten [[1; 2]; [3; 4]]) (flatten [[5; 6]; [7; 8]]).
Proof.
  apply batch_is_step_major; (split; [reflexivity | repeat constructor]).
Defined.

(** X21.  Because the returns of an iteration are its advantages plus
    its values, the residual [returns - values] of the diagnostic is
    the advantage: where the variance of the returns is not zero, the
    explained variance of an iteration is
    [1 - Var(advantages) / Var(returns)] over the flattened batch. *)
Theorem explained_variance_from_advantages :
  forall (T N : nat) (advantages values : Table),
    shaped T N advantages -> shaped T N values ->
    Diagnostics.np_var (flatten (add2 advantages values)) <> 0 ->
    Diagnostics.iteration_explained_var values (add2 advantages values)
    = Some (1 - Diagnostics.np_var (flatten advantages)
                / Diagnostics.np_var (flatten (add2 advantages values)))
    /\ sub (flatten (add2 advantages values)) (flatten values)
       = flatten advantages.
Proof.
  intros T N adv vals Ha Hv Hvar.
  assert (Hres : sub (flatten (add2 adv vals)) (flatten vals) = flatten adv).
  { rewrite (BatchFacts.flatten_add2 T N) by done.
    rewrite BatchFacts.sub_add_cancel; [done|].
    destruct Ha as [Hla Hra], Hv as [Hlv Hrv]. unfold flatten.
    rewrite !(GlobalStateFacts.concat_length_uniform N) by done. lia. }
  split; [|exact Hres].
  unfold Diagnostics.iteration_explained_var, Diagnostics.explained_var.
  destruct (Req_dec_T _ 0) as [E|E]; [done|].
  by rewrite Hres.
Qed.

(** X21 on tables of two steps and one slot: advantages [1, 3] on
    values [5, 7], returns [6, 10] of variance [4]. *)
Lemma explained_variance_from_advantages_witness :
  Diagnostics.iteration_explained_var [[5]; [7]] (add2 [[1]; [3]] [[5]; [7]])
  = Some (1 - Diagnostics.np_var (flatten [[1]; [3]])
              / Diagnostics.np_var (flatten (add2 [[1]; [3]] [[5]; [7]])))
  /\ sub (flatten (add2 [[1]; [3]] [[5]; [7]])) (flatten [[5]; [7]])
     = flatten [[1]; [3]].
Proof.
  apply (explained_variance_from_advantages 2 1);
    [split; [reflexivity | repeat constructor]
    |split; [reflexivity | repeat constructor]
    |].
  assert (E : Diagnostics.np_var (flatten (add2 [[1]; [3]] [[5]; [7]])) = 4).
  { unfold Diagnostics.np_var, Tensor.mean. cbn. lra. }
  rewrite E. lra.
Defined.

(** ** More on the epoch loop *)

Lemma optimize_zero_minibatch {World : Type}
    (shuffle : World -> list nat -> World * list nat)
    (logratio : World -> list nat -> Row) (learn : World -> list nat -> World)
    (batch_size update_epochs : nat) (target_kl : option R)
    (st : Optimizer.LoopState World) :
  (0 < update_epochs)%nat ->
  Optimizer.optimize World shuffle logratio learn batch_size 0 target_kl
    update_epochs st = None.
Proof.
  intros He. unfold Optimizer.optimize.
  destruct update_epochs as [|n]; [lia|].
  cbn [seq Optimizer.epoch_loop]. unfold Optimizer.run_epoch.
  by destruct (shuffle _ _).
Qed.

(** X22.  Asking for more minibatches than the batch has samples gives
    a minibatch size of zero, and then the first epoch of the first
    iteration stops with an error ([range] refuses a zero step): no
    minibatch pass runs. *)
Theorem too_many_minibatches_raise :
  forall (args_num_envs num_agents num_steps num_minibatches
          total_timesteps : Z),
    (0 < args_num_envs * num_agents * num_steps < num_minibatches)%Z ->
    exists rt : Config.Runtime,
      Config.runtime args_num_envs num_agents num_steps num_minibatches
        total_timesteps = Some rt
      /\ Config.minibatch_size rt = 0%Z
      /\ forall (World : Type)
                (shuffle : World -> list nat -> World * list nat)
                (logratio : World -> list nat -> Row)
                (learn : World -> list nat -> World)
                (target_kl : option R) (update_epochs : nat)
                (st : Optimizer.LoopState World),
           (0 < update_epochs)%nat ->
           Optimizer.optimize World shuffle logratio learn
             (Z.to_nat (Config.batch_size rt))
             (Z.to_nat (Config.minibatch_size rt))
             target_kl update_epochs st = None.
Proof.
  intros ne na ns nm tt Hb.
  unfold Config.runtime, Config.floordiv.
  destruct (Z.eqb_spec nm 0) as [?|_]; [lia|].
  destruct (Z.eqb_spec (ne * na * ns) 0) as [?|_]; [lia|].
  cbn [mbind option_bind]. eexists. split; [reflexivity|].
  cbn [Config.batch_size Config.minibatch_size].
  rewrite Z.div_small by lia. split; [reflexivity|].
  intros World shuffle logratio learn target_kl update_epochs st He.
  by apply optimize_zero_minibatch.
Qed.

(** X22 with a batch of 6 samples and 8 minibatches. *)
Lemma too_many_minibatches_raise_witness :
  exists rt : Config.Runtime,
    Config.runtime 1 3 2 8 1000 = Some rt
    /\ Config.minibatch_size rt = 0%Z
    /\ forall (World : Type)
              (shuffle : World -> list nat -> World * list nat)
              (logratio : World -> list nat -> Row)
              (learn : World -> list nat -> World)
              (target_kl : option R) (update_epochs : nat)
              (st : Optimizer.LoopState World),
         (0 < update_epochs)%nat ->
         Optimizer.optimize World shuffle logratio learn
           (Z.to_nat (Config.batch_size rt))
           (Z.to_nat (Config.minibatch_size rt))
           target_kl update_epochs st = None.
Proof. apply too_many_minibatches_raise. lia. Defined.

(** X23.  A threshold that no epoch's last KL exceeds changes nothing:
    the loop ends in the same state as without a threshold, after all
    [update_epochs] epochs. *)
Theorem threshold_never_exceeded :
  forall (World : Type) (shuffle : World -> list nat -> World * list nat)
         (logratio : World -> list nat -> Row)
         (learn : World -> list nat -> World)
         (batch_size minibatch_size update_epochs : nat)
         (k : R) (st : Optimizer.LoopState World),
    (0 < batch_size)%nat -> (0 < minibatch_size)%nat ->
    (forall i (st_i : Optimizer.LoopState World) kl_i,
        (i < update_epochs)%nat ->
        Optimizer.complete_epochs World shuffle logratio learn
          batch_size minibatch_size (S i) st = Some st_i ->
        Optimizer.approx_kl World st_i = Some kl_i -> ~ kl_i > k) ->
    Optimizer.optimize World shuffle logratio learn
      batch_size minibatch_size (Some k) update_epochs st
    = Optimizer.optimize World shuffle logratio learn
        batch_size minibatch_size None update_epochs st
    /\ Optimizer.optimize World shuffle logratio learn
         batch_size minibatch_size (Some k) update_epochs st
       = Optimizer.complete_epochs World shuffle logratio learn
           batch_size minibatch_size update_epochs st.
Proof.
  intros World shuffle logratio learn bs mbs E k st Hb Hm Hbelow.
  unfold Optimizer.optimize, Optimizer.complete_epochs in *.
  rewrite loop_no_threshold by done.
  assert (H : Optimizer.epoch_loop World shuffle logratio learn bs mbs
                (Some k) (seq 0 E) st
              = Rollout.for_each (seq 0 E)
                  (Optimizer.run_epoch World shuffle logratio learn bs mbs) st).
  { apply loop_never_stops; [done|done|].
    intros i st_i kl_i Hi Hrun. rewrite length_seq in Hi.
    apply (Hbelow i st_i kl_i Hi).
    rewrite take_seq in Hrun.
    by replace (S i `min` E)%nat with (S i) in Hrun by lia. }
  by rewrite H.
Qed.

(** X23 on a policy that did not move (every KL is 0) with threshold 1. *)
Lemma threshold_never_exceeded_witness :
  let shuffle := fun (w : unit) (l : list nat) => (w, l) in
  let logratio := fun (_ : unit) (_ : list nat) => [0] in
  let learn := fun (w : unit) (_ : list nat) => w in
  let st := Optimizer.mkLoopState unit tt [0; 1; 2; 3]%nat None [] in
  Optimizer.optimize unit shuffle logratio learn 4 2 (Some 1) 2 st
  = Optimizer.optimize unit shuffle logratio learn 4 2 None 2 st
  /\ Optimizer.optimize unit shuffle logratio learn 4 2 (Some 1) 2 st
     = Optimizer.complete_epochs unit shuffle logratio learn 4 2 2 st.
Proof.
  intros shuffle logratio learn st.
  assert (Hkl : Optimizer.approx_kl_of [0] = 0).
  { unfold Optimizer.approx_kl_of, Tensor.mean. cbn. rewrite exp_0. lra. }
  apply threshold_never_exceeded; [lia | lia |].
  intros i st_i kl_i Hi Hrun Hkl_i.
  destruct i as [|[|i]]; [| |lia];
    cbn -[Optimizer.approx_kl_of] in Hrun; injection Hrun as <-;
    cbn -[Optimizer.approx_kl_of] in Hkl_i; injection Hkl_i as <-;
    unfold logratio; rewrite Hkl; lra.
Defined.

(** ** The normalizer statistics at the end of an iteration *)

Lemma passes_enabled ewa (mbs : list Row) :
  Forall (fun mb => mb <> []) mbs ->
  forall st : Normalizer.State,
    Normalizer.eps_var <= Normalizer.var st ->
    exists st' : Normalizer.State,
      Script.passes true ewa (Some st) mbs = Some (Some st')
      /\ Normalizer.eps_var <= Normalizer.var st'.
Proof.
  induction 1 as [|mb mbs Hmb _ IH]; intros st Hvar.
  - by exists st.
  - destruct (NormalizerFacts.update_total ewa st mb Hmb)
      as (st1 & Hupd & _ & _ & _ & Hc).
    pose proof (NormalizerFacts.coherent_var st1 Hc) as Hvar1.
    pose proof NormalizerFacts.eps_var_pos.
    destruct (IH st1 Hvar1) as (st' & Hrun & Hvar').
    exists st'. split; [|done].
    cbn [Script.passes]. unfold Script.pass, Targets.value_targets.
    cbn [mbind option_bind]. rewrite Hupd. cbn [mbind option_bind].
    rewrite normalize_row_total by lra. cbn. exact Hrun.
Qed.

Lemma passes_disabled ewa (vars : Script.Vars) (mbs : list Row) :
  Script.passes false ewa vars mbs = Some vars.
Proof. revert vars. induction mbs as [|mb mbs IH]; intros vars; [done|]. cbn. apply IH. Qed.

(** X24.  In a first iteration with at least one minibatch pass: with
    value normalization enabled the iteration ends by logging the
    normalizer's mean and a variance of at least [1e-2]; with value
    normalization disabled the names [mean] and [var] are never bound,
    by the start-up code or by any minibatch pass, so the logging lines
    at the end of the first iteration stop the script with a name
    error. *)
Theorem normalizer_stats_need_normalization :
  forall (ewa_weigth : R) (mbs : list Row),
    mbs <> [] ->
    Forall (fun mb => mb <> []) mbs ->
    (exists m v : R,
        Script.first_iteration_stats true ewa_weigth mbs = Some (m, v)
        /\ Normalizer.eps_var <= v)
    /\ Script.first_iteration_stats false ewa_weigth mbs = None.
Proof.
  intros ewa mbs Hne Hall.
  assert (Hlog : Script.log_losses mbs = Some tt) by (by destruct mbs).
  split.
  - unfold Script.first_iteration_stats, Script.start.
    rewrite NormalizerFacts.init_total. cbn [mbind option_bind].
    destruct (passes_enabled ewa mbs Hall
                (Normalizer.mkState 0 0 0 0 Normalizer.eps_var))
      as (st' & Hrun & Hvar); [cbn; lra|].
    rewrite Hrun. cbn [mbind option_bind]. rewrite Hlog. cbn.
    by eexists _, _.
  - unfold Script.first_iteration_stats, Script.start.
    cbn [mbind option_bind]. rewrite passes_disabled.
    cbn [mbind option_bind]. by rewrite Hlog.
Qed.

(** X24 on an iteration of two minibatch passes. *)
Lemma normalizer_stats_need_normalization_witness :
  (exists m v : R,
      Script.first_iteration_stats true 0.999999 [[1; 2]; [3]] = Some (m, v)
      /\ Normalizer.eps_var <= v)
  /\ Script.first_iteration_stats false 0.999999 [[1; 2]; [3]] = None.
Proof.
  apply normalizer_stats_need_normalization;
    [discriminate | repeat constructor; discriminate].
Defined.
